(** * The analysis pipeline of the BI dashboard, embedded in Rocq

    A shallow embedding of the statistics, interpretation, orchestration,
    collection and export code of the dashboard
    ([reasoning.engine.js], [data.engine.js] and the application core),
    followed by the properties proved about it.

    JavaScript numbers are IEEE 754 binary64 values: they are modelled by
    Rocq's primitive [float], whose operations are the same correctly
    rounded binary64 operations.  JavaScript strings are modelled by
    [string] (code units below 256); case mapping is the ASCII one. *)

From Stdlib Require Import ZArith List String Ascii Bool Lia Floats Sorted Permutation.
Import ListNotations.

Set Warnings "-inexact-float".

Local Open Scope bool_scope.
Local Open Scope list_scope.

(** ** The JavaScript runtime: values, numbers, strings, objects *)

Module JS.

(** *** Characters and strings *)

Definition code (c : ascii) : N := N_of_ascii c.

Definition is_digit (c : ascii) : bool := ((48 <=? code c) && (code c <=? 57))%N.
Definition is_upper (c : ascii) : bool := ((65 <=? code c) && (code c <=? 90))%N.
Definition is_lower (c : ascii) : bool := ((97 <=? code c) && (code c <=? 122))%N.

Definition lower_char (c : ascii) : ascii :=
  if is_upper c then ascii_of_N (code c + 32) else c.
Definition upper_char (c : ascii) : ascii :=
  if is_lower c then ascii_of_N (code c - 32) else c.

(** White space and line terminators removed by [String.prototype.trim]
    (those below 256: TAB, LF, VT, FF, CR, SP, NBSP). *)
Definition is_space (c : ascii) : bool :=
  let n := code c in
  ((9 <=? n) && (n <=? 13) || (n =? 32) || (n =? 160))%N.

Definition chars (s : string) : list ascii := list_ascii_of_string s.
Definition str (l : list ascii) : string := string_of_list_ascii l.

Definition smap (f : ascii -> ascii) (s : string) : string := str (map f (chars s)).
Definition sfilter (f : ascii -> bool) (s : string) : string := str (filter f (chars s)).

Definition toLowerCase : string -> string := smap lower_char.
Definition toUpperCase : string -> string := smap upper_char.

Fixpoint drop_spaces (l : list ascii) : list ascii :=
  match l with
  | c :: r => if is_space c then drop_spaces r else l
  | [] => []
  end.

Definition trim (s : string) : string :=
  str (rev (drop_spaces (rev (drop_spaces (chars s))))).

(** *** Numbers *)

Definition isNaN (x : float) : bool := negb (PrimFloat.eqb x x).

(** ToBoolean of a number: false for [+0], [-0] and [NaN]. *)
Definition num_truthy (x : float) : bool := negb (PrimFloat.eqb x 0 || isNaN x).

(** [x || d] on numbers. *)
Definition num_or (x d : float) : float := if num_truthy x then x else d.

Definition gt (x y : float) : bool := PrimFloat.ltb y x.
Definition lt (x y : float) : bool := PrimFloat.ltb x y.
Definition le (x y : float) : bool := PrimFloat.leb x y.

Definition Math_abs : float -> float := PrimFloat.abs.
Definition Math_sqrt : float -> float := PrimFloat.sqrt.

(** [Math.pow(z, 2)].  ECMAScript leaves the value of [Math.pow] on finite
    operands implementation-approximated; the model takes the correctly
    rounded square, which also has the special values the standard fixes
    ([NaN] for [NaN], [+0] for both zeros, [+Infinity] for both
    infinities). *)
Definition Math_pow2 (z : float) : float := (z * z)%float.

Definition of_nat (n : nat) : float :=
  SF2Prim (binary_normalize prec emax (Z.of_nat n) 0 false).

(** The Number value of the decimal [(-1)^neg * m * 10^t], correctly
    rounded to nearest, ties to even. *)
Definition decimal (neg : bool) (m : Z) (t : Z) : float :=
  match m with
  | Zpos p =>
      match t with
      | Zneg _ =>
          SF2Prim (SFdiv prec emax (S754_finite neg p 0)
                                    (S754_finite false (Z.to_pos (10 ^ (- t))) 0))
      | _ => SF2Prim (binary_round prec emax neg (Z.to_pos (Zpos p * 10 ^ t)) 0)
      end
  | _ => if neg then (-0)%float else 0%float
  end.

(** The exact value of a finite positive number as a fraction [(num, den)]. *)
Definition fraction (m : positive) (e : Z) : Z * Z :=
  match e with
  | Zneg _ => (Zpos m, 2 ^ (- e))
  | _ => (Zpos m * 2 ^ e, 1)
  end%Z.

(** [parseFloat]: leading white space is skipped, and the longest prefix
    that is a decimal literal is read: a sign, then [Infinity] or digits
    with an optional fraction and an optional exponent; [NaN] when there
    is none. *)
Fixpoint span_digits (l : list ascii) : list ascii * list ascii :=
  match l with
  | c :: r => if is_digit c then let (d, t) := span_digits r in (c :: d, t) else ([], l)
  | [] => ([], [])
  end.

Definition digit_val (c : ascii) : Z := Z.of_N (code c) - 48.

Definition digits_to_Z (ds : list ascii) : Z :=
  fold_left (fun acc c => 10 * acc + digit_val c)%Z ds 0%Z.

Fixpoint starts_with (p l : list ascii) : bool :=
  match p, l with
  | [], _ => true
  | a :: p', b :: l' => Ascii.eqb a b && starts_with p' l'
  | _ :: _, [] => false
  end.

Definition read_sign (l : list ascii) : bool * list ascii :=
  match l with
  | "-"%char :: r => (true, r)
  | "+"%char :: r => (false, r)
  | _ => (false, l)
  end.

Definition exponent_part (l : list ascii) : Z :=
  match l with
  | c :: r =>
      if Ascii.eqb c "e" || Ascii.eqb c "E" then
        let (neg, r1) := read_sign r in
        let ds := fst (span_digits r1) in
        if neg then (- digits_to_Z ds)%Z else digits_to_Z ds
      else 0%Z
  | [] => 0%Z
  end.

Definition parseFloat (s : string) : float :=
  let (neg, l1) := read_sign (drop_spaces (chars s)) in
  if starts_with (chars "Infinity") l1 then (if neg then neg_infinity else infinity)
  else
    let (ip, l2) := span_digits l1 in
    let (fp, l3) := match l2 with
                    | "."%char :: r => span_digits r
                    | _ => ([], l2)
                    end in
    match ip ++ fp with
    | [] => nan
    | ds => decimal neg (digits_to_Z ds) (exponent_part l3 - Z.of_nat (List.length fp))
    end.

(** [Number::toString] in radix 10: the shortest digit string [s] (of [k]
    digits, to be scaled by [10^(n-k)]) that reads back as the float,
    the closest one to the number when several of that length do. *)
Definition digit_char (d : Z) : ascii := ascii_of_N (Z.to_N (48 + d)).

Fixpoint decimal_digits_aux (fuel : nat) (n : Z) (acc : list ascii) : list ascii :=
  match fuel with
  | O => acc
  | S f => if (n <? 10)%Z then digit_char n :: acc
           else decimal_digits_aux f (n / 10)%Z (digit_char (n mod 10) :: acc)
  end.

Definition decimal_digits (n : Z) : list ascii :=
  decimal_digits_aux (S (Z.to_nat (Z.log2 n))) n [].

(** [10^t] as a fraction. *)
Definition pow10 (t : Z) : Z * Z :=
  match t with
  | Zneg _ => (1, 10 ^ (- t))
  | _ => (10 ^ t, 1)
  end%Z.

Definition scaled (s t : Z) : float := decimal false s t.

Fixpoint strip_zeros (fuel : nat) (s t : Z) : Z * Z :=
  match fuel with
  | O => (s, t)
  | S f => if ((s mod 10 =? 0) && (0 <? s))%Z then strip_zeros f (s / 10)%Z (t + 1)%Z else (s, t)
  end.

(** The candidate of [k] digits for [x = xn / xd] with [10^L <= x < 10^(L+1)]. *)
Definition shortest_at (x : float) (xn xd L : Z) (k : Z) : option (Z * Z) :=
  let t := (L + 1 - k)%Z in
  let (pn, pd) := pow10 t in
  let lo := ((xn * pd) / (xd * pn))%Z in
  let hi := (lo + 1)%Z in
  let ok_lo := PrimFloat.eqb (scaled lo t) x in
  let ok_hi := PrimFloat.eqb (scaled hi t) x in
  match ok_lo, ok_hi with
  | true, false => Some (lo, t)
  | false, true => Some (hi, t)
  | false, false => None
  | true, true =>
      match (2 * xn * pd ?= (2 * lo + 1) * pn * xd)%Z with
      | Lt => Some (lo, t)
      | Gt => Some (hi, t)
      | Eq => Some (if Z.even lo then lo else hi, t)
      end
  end.

Fixpoint shortest_from (fuel : nat) (x : float) (xn xd L : Z) (k : Z) : Z * Z :=
  match fuel with
  | O => (0, 0)%Z
  | S f => match shortest_at x xn xd L k with
           | Some r => r
           | None => shortest_from f x xn xd L (k + 1)%Z
           end
  end.

Definition floor_log10 (m : positive) (e : Z) (xn xd : Z) : Z :=
  let b := (Zpos (digits2_pos m) + e)%Z in
  let L0 := (((b - 1) * 30103) / 100000)%Z in
  let le_pow10 (L : Z) := let (pn, pd) := pow10 L in (pn * xd <=? xn * pd)%Z in
  if le_pow10 (L0 + 1)%Z then (L0 + 1)%Z else if le_pow10 L0 then L0 else (L0 - 1)%Z.

Definition zeros (n : Z) : list ascii := repeat "0"%char (Z.to_nat n).

Definition format_positive (m : positive) (e : Z) (x : float) : list ascii :=
  let (xn, xd) := fraction m e in
  let L := floor_log10 m e xn xd in
  let (s0, t0) := shortest_from 18 x xn xd L 1 in
  let (s, t) := strip_zeros 400 s0 t0 in
  let ds := decimal_digits s in
  let k := Z.of_nat (List.length ds) in
  let n := (t + k)%Z in
  if ((k <=? n) && (n <=? 21))%Z then ds ++ zeros (n - k)
  else if ((0 <? n) && (n <=? 21))%Z then
    firstn (Z.to_nat n) ds ++ "."%char :: skipn (Z.to_nat n) ds
  else if ((-6 <? n) && (n <=? 0))%Z then
    "0"%char :: "."%char :: zeros (- n) ++ ds
  else
    let ex := (n - 1)%Z in
    let exs := (if (ex <? 0)%Z then "-"%char else "+"%char) :: decimal_digits (Z.abs ex) in
    match ds with
    | [d] => d :: "e"%char :: exs
    | d :: r => d :: "."%char :: r ++ "e"%char :: exs
    | [] => []
    end.

Definition numberToString (x : float) : string :=
  match Prim2SF x with
  | S754_nan => "NaN"
  | S754_zero _ => "0"
  | S754_infinity s => if s then "-Infinity" else "Infinity"
  | S754_finite s m e =>
      str ((if s then ["-"%char] else []) ++ format_positive m e (PrimFloat.abs x))
  end.

(** [x.toFixed(f)]: the integer [n] with [n / 10^f] closest to the exact
    magnitude of [x] (the larger one on a tie), printed with [f] fraction
    digits behind the sign of [x]; [ToString(x)] at magnitudes of [1e21]
    and above, the infinities and [NaN]. *)
Definition toFixed (f : nat) (x : float) : string :=
  match Prim2SF x with
  | S754_finite s m e =>
      if PrimFloat.leb 1e21 (PrimFloat.abs x) then numberToString x
      else
        let (num, den) := fraction m e in
        let p := (10 ^ Z.of_nat f)%Z in
        let n := ((2 * p * num + den) / (2 * den))%Z in
        let ds := decimal_digits n in
        let ds := repeat "0"%char (S f - List.length ds) ++ ds in
        let k := List.length ds in
        str ((if s then ["-"%char] else [])
             ++ firstn (k - f) ds
             ++ match f with O => [] | _ => "."%char :: skipn (k - f) ds end)
  | S754_zero _ =>
      str ("0"%char :: match f with O => [] | _ => "."%char :: repeat "0"%char f end)
  | _ => numberToString x
  end.

(** [n.toString(36)] for an integer [n]. *)
Definition digit36 (d : Z) : ascii :=
  if (d <? 10)%Z then ascii_of_N (Z.to_N (48 + d)) else ascii_of_N (Z.to_N (87 + d)).

Fixpoint base36_aux (fuel : nat) (n : Z) (acc : list ascii) : list ascii :=
  match fuel with
  | O => acc
  | S f => if (n <? 36)%Z then digit36 n :: acc
           else base36_aux f (n / 36)%Z (digit36 (n mod 36) :: acc)
  end.

Definition intToString36 (n : Z) : string :=
  str ((if (n <? 0)%Z then ["-"%char] else [])
       ++ base36_aux (S (Z.to_nat (Z.log2 (Z.abs n)))) (Z.abs n) []).

(** ToInt32, on an integer. *)
Definition toInt32 (z : Z) : Z := ((z + 2 ^ 31) mod 2 ^ 32 - 2 ^ 31)%Z.

(** *** Values *)

Inductive value : Type :=
| VUndef
| VNull
| VBool (b : bool)
| VNum (x : float)
| VStr (s : string).

Definition truthy (v : value) : bool :=
  match v with
  | VUndef | VNull => false
  | VBool b => b
  | VNum x => num_truthy x
  | VStr s => negb (String.eqb s "")
  end.

(** [v || d] *)
Definition or_else (v d : value) : value := if truthy v then v else d.

(** [String(v)] *)
Definition ToString (v : value) : string :=
  match v with
  | VUndef => "undefined"
  | VNull => "null"
  | VBool true => "true"
  | VBool false => "false"
  | VNum x => numberToString x
  | VStr s => s
  end.

(** *** Plain objects

    An object with string keys is the list of its own properties in the
    order of their creation, each key once.  Properties inherited from
    [Object.prototype] are not modelled: [inherited] lists their names,
    and the statements about code that reads an object at a data-supplied
    key say where they assume the key is none of them. *)
Definition obj (A : Type) : Type := list (string * A).

Fixpoint get {A} (o : obj A) (k : string) : option A :=
  match o with
  | (k', v) :: r => if String.eqb k' k then Some v else get r k
  | [] => None
  end.

Fixpoint set {A} (o : obj A) (k : string) (v : A) : obj A :=
  match o with
  | (k', v') :: r => if String.eqb k' k then (k', v) :: r else (k', v') :: set r k v
  | [] => [(k, v)]
  end.

Definition inherited (k : string) : bool :=
  existsb (String.eqb k)
    ["constructor"; "__defineGetter__"; "__defineSetter__"; "hasOwnProperty";
     "__lookupGetter__"; "__lookupSetter__"; "isPrototypeOf";
     "propertyIsEnumerable"; "toString"; "valueOf"; "__proto__";
     "toLocaleString"]%string.

(** An array index: the canonical decimal string of an integer in
    [0 .. 2^32 - 2]. *)
Definition is_array_index (k : string) : bool :=
  match chars k with
  | [] => false
  | c :: r =>
      forallb is_digit (c :: r)
      && (negb (Ascii.eqb c "0") || match r with [] => true | _ => false end)
      && (digits_to_Z (c :: r) <=? 4294967294)%Z
  end.

Definition index_of (k : string) : Z := digits_to_Z (chars k).

Fixpoint insert_index {A} (e : string * A) (l : list (string * A)) : list (string * A) :=
  match l with
  | e' :: r => if (index_of (fst e) <? index_of (fst e'))%Z then e :: l
               else e' :: insert_index e r
  | [] => [e]
  end.

(** [Object.entries(o)]: the array indices in ascending numeric order,
    then the other keys in creation order. *)
Definition entries {A} (o : obj A) : list (string * A) :=
  fold_right insert_index [] (filter (fun e => is_array_index (fst e)) o)
  ++ filter (fun e => negb (is_array_index (fst e))) o.

Definition keys {A} (o : obj A) : list string := map fst (entries o).

(** A row of a dataset: an object whose cells are values. *)
Definition row : Type := obj value.

(** [d[k]] on a row *)
Definition cell (d : row) (k : string) : value :=
  match get d k with
  | Some v => v
  | None => VUndef
  end.

(** *** Arrays *)

(** [Array.prototype.sort(comparefn)]: [a] is placed after [b] when
    [comparefn(a, b) > 0] ([NaN] counts as [+0]); the sort is stable.
    With a consistent comparator this fixes the result; with an
    inconsistent one ECMAScript leaves the order to the implementation,
    and the model is an insertion sort. *)
Fixpoint sort_insert {A} (cmp : A -> A -> float) (x : A) (l : list A) : list A :=
  match l with
  | y :: r => if gt (cmp x y) 0 then y :: sort_insert cmp x r else x :: l
  | [] => [x]
  end.

Definition sort {A} (cmp : A -> A -> float) (l : list A) : list A :=
  fold_right (sort_insert cmp) [] l.

(** [a.reduce((acc, v) => f(acc, v), init)] is [fold_left f a init];
    [a[i]] on an array of numbers, [undefined] (a [NaN] in arithmetic)
    out of range. *)
Definition at_index (a : list float) (i : nat) : float := nth i a nan.

(** *** JSON *)

Definition quote_char : ascii := ascii_of_nat 34.
Definition backslash : ascii := ascii_of_nat 92.

Definition hex_digit (d : N) : ascii :=
  if (d <? 10)%N then ascii_of_N (48 + d) else ascii_of_N (87 + d).

Definition escape_char (c : ascii) : list ascii :=
  let n := code c in
  if (n =? 8)%N then [backslash; "b"%char]
  else if (n =? 9)%N then [backslash; "t"%char]
  else if (n =? 10)%N then [backslash; "n"%char]
  else if (n =? 12)%N then [backslash; "f"%char]
  else if (n =? 13)%N then [backslash; "r"%char]
  else if (n =? 34)%N then [backslash; quote_char]
  else if (n =? 92)%N then [backslash; backslash]
  else if (n <? 32)%N then
    [backslash; "u"%char; "0"%char; "0"%char; hex_digit (n / 16); hex_digit (n mod 16)]
  else [c].

Definition quoteJSON (s : string) : list ascii :=
  quote_char :: flat_map escape_char (chars s) ++ [quote_char].

Fixpoint join (sep : list ascii) (l : list (list ascii)) : list ascii :=
  match l with
  | [] => []
  | [a] => a
  | a :: r => a ++ sep ++ join sep r
  end.

Definition is_finite (x : float) : bool :=
  match Prim2SF x with
  | S754_nan | S754_infinity _ => false
  | _ => true
  end.

(** The serialisation of a property, [None] for a property that
    [JSON.stringify] leaves out. *)
Definition value_json (v : value) : option (list ascii) :=
  match v with
  | VUndef => None
  | VNull => Some (chars "null")
  | VBool b => Some (chars (if b then "true" else "false"))
  | VNum x => Some (chars (if is_finite x then numberToString x else "null"))
  | VStr s => Some (quoteJSON s)
  end.

Definition row_json (d : row) : list ascii :=
  "{"%char ::
  join [","%char]
    (flat_map (fun e => match value_json (snd e) with
                        | Some j => [quoteJSON (fst e) ++ ":"%char :: j]
                        | None => []
                        end) (entries d))
  ++ ["}"%char].

(** [JSON.stringify(rows)] *)
Definition stringify (rows : list row) : string :=
  str ("["%char :: join [","%char] (map row_json rows) ++ ["]"%char]).

(** [o[k] = v] on a plain object.  An assignment to [__proto__] creates no
    own property (it sets the prototype, or does nothing for a value that
    is no object). *)
Definition assign {A} (o : obj A) (k : string) (v : A) : obj A :=
  if String.eqb k "__proto__" then o else set o k v.

(** [delete o[k]] *)
Definition delete {A} (o : obj A) (k : string) : obj A :=
  filter (fun e => negb (String.eqb (fst e) k)) o.

(** [Object.values(o)] *)
Definition values {A} (o : obj A) : list A := map snd (entries o).

End JS.


Import JS.

Local Open Scope string_scope.

(** ** The data engine ([data.engine.js]) *)

Module DataEngine.

Record schema : Type := mkSchema {
  numerical : list string;
  categorical : list string;
  temporal : list string
}.

(** A stored dataset (its [meta] block, which no function below reads, is
    left out). *)
Record dataset : Type := mkDataset {
  id : string;
  name : string;
  data : list row;
  headers : list string;
  dschema : schema;
  hash : string
}.

(** The module's two variables. *)
Record state : Type := mkState {
  datasetCollection : obj dataset;
  masterData : list row
}.

(** [datasetCollection[id].data], for an [id] among the collection's keys *)
Definition data_of (coll : obj dataset) (id : string) : list row :=
  match get coll id with
  | Some ds => data ds
  | None => []
  end.

Definition prepareMasterData (mode : string) (st : state) : state :=
  let coll := datasetCollection st in
  let ids := keys coll in
  if Nat.eqb (List.length ids) 0 then
    {| datasetCollection := coll; masterData := [] |}
  else if String.eqb mode "single" then
    {| datasetCollection := coll; masterData := data_of coll (last ids "") |}
  else if String.eqb mode "union" then
    {| datasetCollection := coll; masterData := flat_map (data_of coll) ids |}
  else if String.eqb mode "compare" then
    {| datasetCollection := coll; masterData := data_of coll (last ids "") |}
  else st.

(** [generateHash], the data engine's own copy: a 32-bit rolling hash of
    the serialised rows, printed in radix 36. *)
Definition hash_step (hash : Z) (c : ascii) : Z :=
  toInt32 (toInt32 (hash * 32) - hash + Z.of_N (code c)).

Definition generateHash (data : list row) : string :=
  intToString36 (fold_left hash_step (chars (stringify data)) 0%Z).

(** The characters kept by [.replace(/[^0-9.-]/g, "")] *)
Definition numeric_char (c : ascii) : bool :=
  is_digit c || Ascii.eqb c "." || Ascii.eqb c "-".

Section Discovery.

(** [Date.parse] on a string: but for the ISO format its result is left
    to the browser. *)
Variable Date_parse : string -> float.

(** The tests [discoverSchema] makes on a sampled cell *)
Definition numeric_sample (v : value) : bool :=
  negb (isNaN (parseFloat (sfilter numeric_char (ToString (or_else v (VStr ""))))))
  && negb (String.eqb (trim (ToString v)) "").

Definition date_sample (v : value) : bool :=
  negb (isNaN (Date_parse (ToString v))) && Nat.ltb 5 (String.length (ToString v)).

Definition no_schema : schema := {| numerical := []; categorical := []; temporal := [] |}.

(** The body of [headers.forEach] *)
Definition classify (data : list row) (sch : schema) (h : string) : schema :=
  let sample := map (fun d => cell d h) (firstn 10 data) in
  let isNumeric := forallb numeric_sample sample in
  let isDate := forallb date_sample sample in
  if isNumeric then
    {| numerical := numerical sch ++ [h]; categorical := categorical sch;
       temporal := temporal sch |}
  else if isDate then
    {| numerical := numerical sch; categorical := categorical sch;
       temporal := temporal sch ++ [h] |}
  else
    {| numerical := numerical sch; categorical := categorical sch ++ [h];
       temporal := temporal sch |}.

Definition discoverSchema (data : list row) : schema :=
  match data with
  | [] => no_schema
  | d0 :: _ => fold_left (classify data) (keys d0) no_schema
  end.

(** The cleaning of a parsed row by [storeDataset]: keys trimmed, cells
    turned into trimmed strings. *)
Definition cleanRow (r : row) : row :=
  fold_left
    (fun o key =>
       assign o (trim key)
         (VStr (trim (ToString (match cell r key with
                                | VNull | VUndef => VStr ""
                                | v => v
                                end)))))
    (keys r) [].

(** [v !== ""] *)
Definition not_empty_string (v : value) : bool :=
  match v with
  | VStr s => negb (String.eqb s "")
  | _ => true
  end.

Definition cleanData (data : list row) : list row :=
  filter (fun r => existsb not_empty_string (values r)) (map cleanRow data).

(** What [storeDataset] does: the dataset it stores and hands to
    [PersistenceEngine.saveDataset], or why it stores none.  (Its [file]
    argument only feeds the [meta] block.) *)
Inductive store_outcome : Type :=
| NoRows
| Rejected (warning : string)
| Stored (ds : dataset).

Definition storeDataset (id name : string) (rows : list row) (st : state)
    : state * store_outcome :=
  let cleanData := cleanData rows in
  if Nat.eqb (List.length cleanData) 0 then (st, NoRows)
  else
    let schema := discoverSchema cleanData in
    if Nat.eqb (List.length (numerical schema)) 0
       || (Nat.eqb (List.length (categorical schema)) 0
           && Nat.eqb (List.length (temporal schema)) 0)
    then (st, Rejected ("Governance Alert: Dataset [" ++ name
                        ++ "] rejected due to insufficient coordinate validity."))
    else
      let dataset :=
        {| id := id; name := name; data := cleanData;
           headers := keys (hd [] cleanData);
           dschema := schema; hash := generateHash cleanData |} in
      ({| datasetCollection := assign (datasetCollection st) id dataset;
          masterData := masterData st |}, Stored dataset).

End Discovery.

(** [loadHydratedCollection]; [persisted] is what
    [PersistenceEngine.getAllDatasets()] answers, [None] when it is no
    array. *)
Definition loadHydratedCollection (persisted : option (list dataset)) (st : state) : state :=
  match persisted with
  | Some l =>
      {| datasetCollection := fold_left (fun c ds => assign c (id ds) ds) l (datasetCollection st);
         masterData := masterData st |}
  | None => st
  end.

(** The answer of [reconcileCollection] ([readiness] is
    [diagnostics.readiness]). *)
Record reconciliation : Type := mkReconciliation {
  allHeaders : list string;
  sharedHeaders : list string;
  totalRows : nat;
  estMem : value;
  readiness : nat;
  schemas : obj schema
}.

Definition headers_of (coll : obj dataset) (id : string) : list string :=
  match get coll id with
  | Some ds => headers ds
  | None => []
  end.

(** [arr.includes(h)] *)
Definition includes (l : list string) (h : string) : bool := existsb (String.eqb h) l.

(** [set.add(h)] on the list of the members of a [Set], in insertion
    order *)
Definition set_add (pool : list string) (h : string) : list string :=
  if includes pool h then pool else pool ++ [h].

Section Reconciliation.

(** [JSON.stringify(datasetCollection)], which also serialises the [meta]
    blocks *)
Variable stringify_collection : obj dataset -> string.

(** [reconcileCollection]; its argument is not used. *)
Definition reconcileCollection (analysisMode : string) (st : state) : reconciliation :=
  let coll := datasetCollection st in
  let ids := keys coll in
  if Nat.eqb (List.length ids) 0 then
    {| allHeaders := []; sharedHeaders := []; totalRows := 0; estMem := VNum 0;
       readiness := 0; schemas := [] |}
  else
    let sharedHeaders :=
      fold_left (fun shared id => match get coll id with
                                  | Some ds => filter (includes (headers ds)) shared
                                  | None => shared
                                  end)
                ids (headers_of coll (hd "" ids)) in
    let schemas :=
      fold_left (fun m id => match get coll id with
                             | Some ds => assign m id (dschema ds)
                             | None => m
                             end) ids [] in
    let allHeadersPool :=
      fold_left (fun pool id => fold_left set_add (headers_of coll id) pool) ids [] in
    let totalRows := fold_left (fun acc id => acc + List.length (data_of coll id))%nat ids 0%nat in
    let estMem :=
      toFixed 1 (of_nat (String.length (stringify_collection coll)) / 1048576)%float in
    {| allHeaders := allHeadersPool; sharedHeaders := sharedHeaders;
       totalRows := totalRows; estMem := VStr estMem;
       readiness := 100; schemas := schemas |}.

End Reconciliation.

(** The answer of [getCoordinateCandidates]; [None] is [undefined]. *)
Record candidates : Type := mkCandidates {
  cx : option string;
  cy : string;
  cz : string
}.

(** The spread of a numeric column over the first 100 rows, as
    [getCoordinateCandidates] computes it. *)
Definition spread (rows : list row) (h : string) : float :=
  let vals :=
    map (fun d => num_or (parseFloat (sfilter numeric_char (ToString (cell d h)))) 0)
        (firstn 100 rows) in
  let n := if Nat.eqb (List.length vals) 0 then 1%nat else List.length vals in
  let mean := (fold_left (fun a b => a + b) vals 0 / of_nat n)%float in
  fold_left (fun a b => a + Math_pow2 (b - mean))%float vals 0%float.

Definition getCoordinateCandidates (st : state) : candidates :=
  let coll := datasetCollection st in
  let ids := keys coll in
  if Nat.eqb (List.length ids) 0 then {| cx := Some ""; cy := ""; cz := "" |}
  else
    match get coll (last ids "") with
    | None => {| cx := Some ""; cy := ""; cz := "" |}
    | Some ds =>
        let schema := dschema ds in
        let x :=
          match temporal schema with
          | t :: _ => Some t
          | [] => match categorical schema with
                  | c :: _ => Some c
                  | [] => match headers ds with
                          | h :: _ => Some h
                          | [] => None
                          end
                  end
          end in
        match numerical schema with
        | [] => {| cx := x; cy := ""; cz := "" |}
        | h0 :: _ =>
            let best :=
              fold_left (fun (b : float * string) h =>
                           let variance := spread (data ds) h in
                           if gt variance (fst b) then (variance, h) else b)
                        (numerical schema) ((-1)%float, h0) in
            let bestY := snd best in
            let z := match find (fun h => negb (String.eqb h bestY)) (numerical schema) with
                     | Some h => h
                     | None => ""
                     end in
            {| cx := x; cy := bestY; cz := z |}
        end
    end.

(** [removeDataset], on the module's variables *)
Definition removeDataset (id : string) (st : state) : state :=
  {| datasetCollection := delete (datasetCollection st) id; masterData := masterData st |}.

(** [clearAll], on the module's variables *)
Definition clearAll (st : state) : state :=
  {| datasetCollection := []; masterData := [] |}.

End DataEngine.

(** ** The reasoning engine ([reasoning.engine.js]) *)

Module ReasoningEngine.

(** [generateHash]: a 32-bit rolling hash of the serialised rows, printed
    in radix 36. *)
Definition hash_step (hash : Z) (c : ascii) : Z :=
  toInt32 (toInt32 (hash * 32) - hash + Z.of_N (code c)).

Definition generateHash (data : list row) : string :=
  intToString36 (fold_left hash_step (chars (stringify data)) 0%Z).

(** [cleanLabel] *)
Definition dash_to_space (c : ascii) : ascii :=
  if Ascii.eqb c "_" || Ascii.eqb c "-" then " "%char else c.

(** [.replace(/([a-z])([A-Z])/g, '$1 $2')] *)
Fixpoint split_camel (l : list ascii) : list ascii :=
  match l with
  | a :: t =>
      match t with
      | b :: r => if is_lower a && is_upper b then a :: " "%char :: b :: split_camel r
                  else a :: split_camel t
      | [] => [a]
      end
  | [] => []
  end.

Definition ends_with (suffix : string) (l : list ascii) : bool :=
  starts_with (rev (chars suffix)) (rev (map lower_char l)).

(** [.replace(/Id$|Key$|Dataset$|Value$/i, '')] *)
Definition drop_suffix (l : list ascii) : list ascii :=
  let cut n := firstn (List.length l - n) l in
  if ends_with "id" l then cut 2%nat
  else if ends_with "key" l then cut 3%nat
  else if ends_with "dataset" l then cut 7%nat
  else if ends_with "value" l then cut 5%nat
  else l.

(** [.split(' ')] *)
Fixpoint split_spaces (l : list ascii) : list (list ascii) :=
  match l with
  | c :: r =>
      if Ascii.eqb c " " then [] :: split_spaces r
      else match split_spaces r with
           | w :: ws => (c :: w) :: ws
           | [] => [[c]]
           end
  | [] => [[]]
  end.

Definition capitalise (w : list ascii) : list ascii :=
  match w with
  | c :: r => upper_char c :: map lower_char r
  | [] => []
  end.

Definition cleanLabel (label : string) : string :=
  if String.eqb label "" then "N/A"
  else
    let cleaned :=
      chars (trim (str (drop_suffix (split_camel (map dash_to_space (chars label)))))) in
    str (join [" "%char] (map capitalise (split_spaces cleaned))).

(** [parseVal] *)
Definition keep_numeric (c : ascii) : bool :=
  is_digit c || Ascii.eqb c "." || Ascii.eqb c "-".

Definition parseVal (v : value) : float :=
  match v with
  | VNum x => x
  | _ => num_or (parseFloat (sfilter keep_numeric (ToString (or_else v (VStr ""))))) 0
  end.

(** The statistics record of [computeFullStats]. *)
Record stats : Type := mkStats {
  mean : float;
  median : float;
  variance : float;
  stdDev : float;
  min : float;
  max : float;
  range : float;
  peak : float;
  lowPoint : float;
  sum : float;
  count : nat
}.

Definition add (a b : float) : float := (a + b)%float.

(** The column, coerced, without its [NaN]s. *)
Definition column (data : list row) (field : string) : list float :=
  filter (fun n => negb (isNaN n)) (map (fun d => parseVal (cell d field)) data).

Definition computeFullStats (data : list row) (field : string) : option stats :=
  let nums := column data field in
  let count := List.length nums in
  if Nat.eqb count 0 then None
  else
    let sum := fold_left add nums 0%float in
    let avg := (sum / of_nat count)%float in
    let sorted := sort (fun a b => a - b)%float nums in
    let min := at_index sorted 0 in
    let max := at_index sorted (count - 1) in
    let median :=
      if negb (Nat.eqb (count mod 2) 0) then at_index sorted (count / 2)
      else ((at_index sorted (count / 2 - 1) + at_index sorted (count / 2)) / 2)%float in
    let variance :=
      (fold_left (fun a b => a + Math_pow2 (b - avg)) nums 0 / of_nat count)%float in
    let stdDev := Math_sqrt variance in
    Some {| mean := avg; median := median; variance := variance; stdDev := stdDev;
            min := min; max := max; range := (max - min)%float;
            peak := max; lowPoint := min; sum := sum; count := count |}.

Definition computeCorrelation (data : list row) (x y : string) : float :=
  let xVals := map (fun d => parseVal (cell d x)) data in
  let yVals := map (fun d => parseVal (cell d y)) data in
  let n := List.length xVals in
  if Nat.ltb n 2 then 0%float
  else
    let nf := of_nat n in
    let sumX := fold_left add xVals 0%float in
    let sumY := fold_left add yVals 0%float in
    let sumXY := fold_left (fun a vw => a + fst vw * snd vw)%float (combine xVals yVals) 0%float in
    let sumX2 := fold_left (fun a v => a + v * v)%float xVals 0%float in
    let sumY2 := fold_left (fun a v => a + v * v)%float yVals 0%float in
    let numerator := (nf * sumXY - sumX * sumY)%float in
    let denominator :=
      Math_sqrt ((nf * sumX2 - sumX * sumX) * (nf * sumY2 - sumY * sumY))%float in
    if PrimFloat.eqb denominator 0 then 0%float else (numerator / denominator)%float.

(** [getCategoricalStats] *)
Definition category_key (d : row) (x : string) : string :=
  trim (ToString (or_else (cell d x) (VStr "N/A"))).

Definition excluded_key (k : string) : bool :=
  String.eqb k "" || String.eqb (toLowerCase k) "null".

Definition freq_step (x y : string) (freq : obj float) (d : row) : obj float :=
  let k := category_key d x in
  if excluded_key k then freq
  else
    let old := match get freq k with Some v => v | None => nan end in
    set freq k (num_or old 0 + parseVal (cell d y))%float.

Definition getCategoricalStats (data : list row) (x y : string) : list (string * float) :=
  let freq := fold_left (freq_step x y) data [] in
  sort (fun a b => snd b - snd a)%float (entries freq).

(** [biAnalystBrain] *)
Record shifts : Type := mkShifts { volShift : float; peakShift : float }.

Record interpretation : Type := mkInterpretation {
  operationalState : string;
  concentrationRisk : string;
  stabilityAssessment : string;
  efficiencyObservation : string;
  varianceStatus : string
}.

Record impact : Type := mkImpact {
  label : string;
  category : string;
  detail : string;
  threshold : string
}.

Record advice : Type := mkAdvice {
  action : string;
  metric : string;
  context : string
}.

Record brain : Type := mkBrain {
  biInterpretation : interpretation;
  impactMatrix : list impact;
  advisory : list advice
}.

Definition concentration_of (st : stats) : float :=
  (max st / num_or (sum st) 1 * 100)%float.

(** [advisory.push(e)] under a condition *)
Definition push_if {A} (c : bool) (e : A) (l : list A) : list A :=
  if c then l ++ [e] else l.

Definition biAnalystBrain (st : stats) (sh : shifts) (correlation : float)
    (xLabel yLabel dominantContributor : string) : brain :=
  let concentration := concentration_of st in
  let varianceInterpretation :=
    if gt (stdDev st / num_or (mean st) 1) 0.5 then "High Variance (Skewed)"
    else "Stable Distribution (Balanced)" in
  let biInterpretation := {|
    operationalState :=
      if gt concentration 50 then "Highly Concentrated (Siloed)" else "Balanced (Distributed)";
    concentrationRisk :=
      if gt concentration 40 then "Critical Alpha Dependency" else "Stable Diversification";
    stabilityAssessment :=
      if lt (Math_abs (volShift sh)) 10 then "Steady-State Operational"
      else "Volatile Flow Change";
    efficiencyObservation :=
      if gt (mean st) 0 && lt (stdDev st / mean st) 0.5 then "High Precision Flow"
      else "Dispersed Intensity";
    varianceStatus := varianceInterpretation
  |} in
  let impactMatrix := [
    {| label := "Alpha Node Leverage";
       category := if gt (max st) (mean st * 5) then "High Impact" else "Medium Impact";
       detail := "Dominant contributor [" ++ dominantContributor ++ "] controls "
                 ++ toFixed 1 concentration ++ "% of total volume.";
       threshold := "Concentration > 40% triggers dependency risk." |};
    {| label := "Distribution Stability";
       category := if gt (Math_abs (stdDev st / num_or (mean st) 1)) 0.8 then "Critical Risk"
                   else "Stable";
       detail := "Variance measured at " ++ toFixed 1 (variance st)
                 ++ " with a StdDev of " ++ toFixed 1 (stdDev st) ++ ".";
       threshold := "Variance within operational stability threshold." |};
    {| label := "Temporal/Relational Lock";
       category := if gt (Math_abs correlation) 0.7 then "Operationally Critical"
                   else "Weak Correlation";
       detail := yLabel ++ " shows a " ++ toFixed 2 (Math_abs correlation)
                 ++ " correlation strength with " ++ xLabel ++ ".";
       threshold := "Correlation > 0.7 indicates direct operational dependency." |}
  ] in
  let advisory := [] in
  let advisory :=
    push_if (gt concentration 40)
      {| action := "DIVERSIFY"; metric := "Concentration";
         context := "Reduce dependency on dominant nodes ([" ++ dominantContributor
                    ++ "]). High concentration (" ++ toFixed 1 concentration
                    ++ "%) creates single-point failure risks. Actions should focus on redistributing volume to secondary nodes." |}
      advisory in
  let advisory :=
    push_if (gt (Math_abs (volShift sh)) 15)
      {| action := "MONITOR"; metric := "Volatility";
         context := "Significant volume shift detected (" ++ numberToString (volShift sh)
                    ++ "%). Validate input integrity and peak stability. Distribution change exceeds the 15% threshold for standard operations." |}
      advisory in
  let advisory :=
    push_if (gt (stdDev st / num_or (mean st) 1) 1.2)
      {| action := "REDUCE"; metric := "Dispersion";
         context := "High data variance detected. Streamline operational nodes to improve flow consistency. Targeted stabilization of high-variance segments is recommended." |}
      advisory in
  let advisory :=
    push_if (Nat.eqb (List.length advisory) 0)
      {| action := "MAINTAIN"; metric := "Baseline";
         context := "System operating within balanced parameters. Continue standard monitoring protocol as variance and concentration remain within optimal thresholds." |}
      advisory in
  {| biInterpretation := biInterpretation; impactMatrix := impactMatrix; advisory := advisory |}.

(** [runAuditLogic] *)

(** Text with numbers printed by [toLocaleString], whose output is the
    host locale's. *)
Inductive frag : Type :=
| Txt (s : string)
| LocaleString (x : float).

Definition text : Type := list frag.

Record metrics : Type := mkMetrics {
  totalVolume : float;
  averageIntensity : float;
  peakMagnitude : float;
  nodeCount : nat;
  m_volShift : float;
  m_peakShift : float;
  m_correlation : float
}.

Record peaks : Type := mkPeaks {
  point : string;
  p_value : float;
  intensity : string
}.

Record ranges : Type := mkRanges {
  operational : text;
  stability : string
}.

Record driver : Type := mkDriver {
  d_name : string;
  d_value : float;
  d_concentration : string
}.

Record section : Type := mkSection {
  title : string;
  content : text
}.

(** An analysis result.  The fields whose presence the code tests
    ([metrics] in the history, and the ones the export checks) are
    options: results restored from storage may lack them.  The fields
    [statistics] and [biInterpretation] of the code repeat [mainStats]
    and [interpretation] and are left out. *)
Record result : Type := mkResult {
  version : string;
  timestamp : string;
  trackId : string;
  r_hash : string;
  labels : string * string;
  r_statisticsModel : option (obj stats);
  mainStats : option stats;
  r_metrics : option metrics;
  r_interpretation : option interpretation;
  r_impactMatrix : list impact;
  r_advisory : option (list advice);
  r_peaks : option peaks;
  r_ranges : option ranges;
  dominantDrivers : list driver;
  distributions : list (string * float);
  isDelta : bool;
  reportSections : option (list section)
}.

Record payload : Type := mkPayload {
  p_x : string;
  p_y : string;
  p_mode : string;
  p_collection : obj DataEngine.dataset;
  p_masterData : list row;
  p_history : list result;
  p_lastHash : option string
}.

Definition is_boolean (v : value) : bool :=
  match v with VBool _ => true | _ => false end.

Definition delta_pct (cur prev : float) : float :=
  parseFloat (toFixed 1 ((cur - prev) / num_or prev 1 * 100)%float).

(** [now] is [new Date().toISOString()] and [rnd] the five characters
    taken from [Math.random()].  The result is [None] where the code
    throws a [TypeError] (no statistics for the Y column). *)
Definition runAuditLogic (now rnd : string) (p : payload) : option result :=
  let x := p_x p in
  let y := p_y p in
  let masterData := p_masterData p in
  let currentHash := generateHash masterData in
  let isDelta := negb (match p_lastHash p with
                       | Some h => String.eqb currentHash h
                       | None => false
                       end) in
  let firstRow : row := match masterData with d :: _ => d | [] => [] end in
  let numericFields :=
    filter (fun k => negb (isNaN (parseVal (cell firstRow k)))
                     && negb (is_boolean (cell firstRow k)))
           (keys firstRow) in
  let statisticsModel : obj stats :=
    fold_left (fun m field => match computeFullStats masterData field with
                              | Some st => set m field st
                              | None => m
                              end) numericFields [] in
  let mainStats :=
    match get statisticsModel y with
    | Some st => Some st
    | None => if inherited y then None else computeFullStats masterData y
    end in
  let correlation := computeCorrelation masterData x y in
  let categorical := getCategoricalStats masterData x y in
  match mainStats with
  | None => None
  | Some mainStats =>
      let sh :=
        match p_history p with
        | prev :: _ =>
            match r_metrics prev with
            | Some pm =>
                {| volShift := delta_pct (sum mainStats) (totalVolume pm);
                   peakShift := delta_pct (max mainStats) (peakMagnitude pm) |}
            | None => {| volShift := 0; peakShift := 0 |}
            end
        | [] => {| volShift := 0; peakShift := 0 |}
        end in
      let xLab := cleanLabel x in
      let yLab := cleanLabel y in
      let dominantContributor :=
        match categorical with e :: _ => fst e | [] => "N/A" end in
      let brain := biAnalystBrain mainStats sh correlation xLab yLab dominantContributor in
      let concentration := concentration_of mainStats in
      let execSummary :=
        [Txt ("Dataset identifies a " ++ operationalState (biInterpretation brain)
              ++ " state across ");
         LocaleString (of_nat (count mainStats));
         Txt (" nodes. Main contributor [" ++ dominantContributor ++ "] accounts for "
              ++ toFixed 1 concentration ++ "% of total volume. Operational variance is "
              ++ (if gt (stdDev mainStats) (mean mainStats) then "high" else "stable")
              ++ ", indicating a "
              ++ toLowerCase (efficiencyObservation (biInterpretation brain))
              ++ " baseline.")] in
      Some {|
        version := "v22.0";
        timestamp := now;
        trackId := "TRK_" ++ toUpperCase rnd;
        r_hash := currentHash;
        labels := (xLab, yLab);
        r_statisticsModel := Some statisticsModel;
        mainStats := Some mainStats;
        r_metrics := Some {|
          totalVolume := sum mainStats;
          averageIntensity := mean mainStats;
          peakMagnitude := max mainStats;
          nodeCount := count mainStats;
          m_volShift := volShift sh;
          m_peakShift := peakShift sh;
          m_correlation := correlation |};
        r_interpretation := Some (biInterpretation brain);
        r_impactMatrix := impactMatrix brain;
        r_advisory := Some (advisory brain);
        r_peaks := Some {|
          point := dominantContributor;
          p_value := max mainStats;
          intensity := toFixed 2 (max mainStats / num_or (mean mainStats) 1) ++ "x" |};
        r_ranges := Some {|
          operational := [LocaleString (min mainStats); Txt " → ";
                          LocaleString (max mainStats)];
          stability := toFixed 2 (mean mainStats - stdDev mainStats) ++ " → "
                       ++ toFixed 2 (mean mainStats + stdDev mainStats) |};
        dominantDrivers :=
          map (fun e => {| d_name := fst e; d_value := snd e;
                           d_concentration :=
                             toFixed 1 (snd e / sum mainStats * 100) ++ "%" |})
              (firstn 5 categorical);
        distributions := categorical;
        isDelta := isDelta;
        reportSections := Some [
          {| title := "Executive Summary"; content := execSummary |};
          {| title := "Relational Analysis";
             content := [Txt ("A "
               ++ (if gt (Math_abs correlation) 0.7 then "strong"
                   else if gt (Math_abs correlation) 0.4 then "moderate" else "weak")
               ++ " correlation (" ++ toFixed 2 correlation ++ ") exists between "
               ++ xLab ++ " and " ++ yLab ++ ".")] |} ]
      |}
  end.

(** The orchestrator's variables: the history cache and the hash of the
    last analysed rows ([null] before the first run). *)
Record engine : Type := mkEngine {
  auditHistory : list result;
  lastAnalysisHash : option string;
  savedAudits : list result
}.

(** [finishAnalysis]; [savedAudits] logs the calls of
    [PersistenceEngine.saveAudit], latest first. *)
Definition finishAnalysis (results : result) (st : engine) : result * engine :=
  let history :=
    match auditHistory st with
    | h :: _ => if negb (String.eqb (timestamp h) (timestamp results))
                then results :: auditHistory st else auditHistory st
    | [] => [results]
    end in
  (results, {| auditHistory := history;
               lastAnalysisHash := Some (r_hash results);
               savedAudits := results :: savedAudits st |}).

(** [executeAnalysis], on the path that computes in the calling thread
    (the worker, when there is one, is sent the same payload and runs the
    same [runAuditLogic]).  [persisted] is what
    [PersistenceEngine.getAuditHistory()] answers. *)
Definition executeAnalysis (now rnd : string) (persisted : list result)
    (x y mode : string) (collection : obj DataEngine.dataset) (masterData : list row)
    (st : engine) : option result * engine :=
  let st1 :=
    if Nat.eqb (List.length (auditHistory st)) 0
    then {| auditHistory := persisted; lastAnalysisHash := lastAnalysisHash st;
            savedAudits := savedAudits st |}
    else st in
  let auditConfig := {| p_x := x; p_y := y; p_mode := mode; p_collection := collection;
                        p_masterData := masterData;
                        p_history := firstn 5 (auditHistory st1);
                        p_lastHash := lastAnalysisHash st1 |} in
  match runAuditLogic now rnd auditConfig with
  | Some results => let (r, st2) := finishAnalysis results st1 in (Some r, st2)
  | None => (None, st1)
  end.

(** [clearHistory] *)
Definition clearHistory (st : engine) : engine :=
  {| auditHistory := []; lastAnalysisHash := None; savedAudits := savedAudits st |}.

End ReasoningEngine.

(** ** The admin console: certification *)

Module AdminConsole.

Import ReasoningEngine.





End AdminConsole.

(** ** The application core: report export *)

Module AppCore.

Import ReasoningEngine.

(** [UIRenderer.getSnapshots()]: the data URLs of the rendered charts. *)
Record snapshots : Type := mkSnapshots {
  mainEffect : option string;
  reportChart : option string
}.

(** [!!s] on an optional string *)
Definition present (s : option string) : bool :=
  match s with
  | Some u => negb (String.eqb u "")
  | None => false
  end.

Definition is_some {A} (o : option A) : bool :=
  match o with Some _ => true | None => false end.

Definition validateReportCompleteness (results : result) (snaps : snapshots) : bool :=
  let summary := match reportSections results with
                 | Some (_ :: _) => true
                 | _ => false
                 end in
  let stats := is_some (r_statisticsModel results) in
  let graph := present (reportChart snaps) in
  let peaks := is_some (r_peaks results) in
  let advisory := match r_advisory results with
                  | Some l => Nat.ltb 0 (List.length l)
                  | None => false
                  end in
  forallb (fun v => Bool.eqb v true) [summary; stats; graph; peaks; advisory].

(** What [exportReport] does. *)
Inductive export_outcome : Type :=
| NothingToExport
| ExportBlocked (alert log : string)
| PopupBlocked (alert log : string)
| ReportOpened (trackId hash : string) (log : string).

(** [exportReport]; [popups] tells whether [window.open] answers a
    window. *)
Definition exportReport (lastAnalysisResults : option result) (snaps : snapshots)
    (popups : bool) : export_outcome :=
  match lastAnalysisResults with
  | None => NothingToExport
  | Some results =>
      if negb (validateReportCompleteness results snaps) then
        ExportBlocked
          "REPORT STATUS: INCOMPLETE — EXPORT BLOCKED. Please wait for graph rendering to complete."
          "Export Blocked: Incomplete Intelligence Artifact."
      else if negb popups then
        PopupBlocked "POPUP BLOCKED: Please allow popups to export the report."
                     "Export Failed: Popup Blocked."
      else
        ReportOpened (trackId results) (r_hash results)
                     ("Report Exported: " ++ trackId results)
  end.

End AppCore.

(** ** What the code computes, in closed form *)

Import ReasoningEngine AppCore.

(** The modes [prepareMasterData] knows. *)
Definition known_mode (mode : string) : bool :=
  String.eqb mode "single" || String.eqb mode "union" || String.eqb mode "compare".

(** The advisory actions of [biAnalystBrain]. *)
Definition advisory_actions (st : stats) (sh : shifts) : list string :=
  let fired :=
    ((if gt (concentration_of st) 40 then ["DIVERSIFY"] else [])
     ++ (if gt (Math_abs (volShift sh)) 15 then ["MONITOR"] else [])
     ++ (if gt (stdDev st / num_or (mean st) 1) 1.2 then ["REDUCE"] else []))%list in
  match fired with
  | [] => ["MAINTAIN"]
  | _ => fired
  end.

(** The five checks of [validateReportCompleteness]. *)
Definition complete (r : result) (s : snapshots) : bool :=
  match reportSections r with Some (_ :: _) => true | _ => false end
  && is_some (r_statisticsModel r)
  && present (reportChart s)
  && is_some (r_peaks r)
  && match r_advisory r with Some (_ :: _) => true | _ => false end.

(** The label [s] is [yes] exactly when [b] holds, and [no] otherwise. *)
Definition decides (b : bool) (s yes no : string) : Prop :=
  (s = yes <-> b = true) /\ (s = no <-> b = false).

(** The ratio [stdDev / (mean || 1)] that [biAnalystBrain] thresholds. *)
Definition dispersion (st : stats) : float := (stdDev st / num_or (mean st) 1)%float.

(** Binary64 numbers in their order: a number that is no [NaN] has a
    key, and the numbers compare as their keys do lexicographically. *)
Definition key (x : spec_float) : Z * Z * Z :=
  match x with
  | S754_nan => (0, 0, 0)
  | S754_zero _ => (0, 0, 0)
  | S754_infinity false => (2, 0, 0)
  | S754_infinity true => (-2, 0, 0)
  | S754_finite false m e => (1, e, Zpos m)
  | S754_finite true m e => (-1, - e, Zneg m)
  end%Z.

Definition lexc (k1 k2 : Z * Z * Z) : comparison :=
  let '(a1, b1, c1) := k1 in
  let '(a2, b2, c2) := k2 in
  match (a1 ?= a2)%Z with
  | Eq => match (b1 ?= b2)%Z with
          | Eq => (c1 ?= c2)%Z
          | r => r
          end
  | r => r
  end.

Definition kle (k1 k2 : Z * Z * Z) : Prop :=
  let '(a1, b1, c1) := k1 in
  let '(a2, b2, c2) := k2 in
  (a1 < a2 \/ (a1 = a2 /\ (b1 < b2 \/ (b1 = b2 /\ c1 <= c2))))%Z.

Definition klt (k1 k2 : Z * Z * Z) : Prop :=
  let '(a1, b1, c1) := k1 in
  let '(a2, b2, c2) := k2 in
  (a1 < a2 \/ (a1 = a2 /\ (b1 < b2 \/ (b1 = b2 /\ c1 < c2))))%Z.

Definition fkey (x : float) : Z * Z * Z := key (Prim2SF x).

Definition signed (s : bool) (x : spec_float) : Prop :=
  match x with
  | S754_zero s' | S754_infinity s' | S754_finite s' _ _ => s' = s
  | S754_nan => False
  end.

Definition nonzero (s : bool) (x : spec_float) : Prop :=
  match x with
  | S754_infinity s' | S754_finite s' _ _ => s' = s
  | _ => False
  end.

Local Open Scope Z_scope.

(** The value of a finite number, counted in units of the smallest
    positive number *)
Definition units (x : spec_float) : Z :=
  match x with
  | S754_finite s m e => cond_Zopp s (Zpos m * 2 ^ (e - emin))
  | _ => 0
  end.

(** The magnitudes with a mantissa of at most [prec] bits *)
Definition on_grid (B : Z) : Prop :=
  exists m k, B = m * 2 ^ k /\ 0 <= m < 2 ^ prec /\ 0 <= k.

(** The numbers that are neither infinite nor [NaN] *)
Definition finite (x : spec_float) : bool :=
  match x with
  | S754_zero _ | S754_finite _ _ _ => true
  | _ => false
  end.

(** The numbers that are [>= 0]: neither [NaN] nor negative *)
Definition nonneg (x : spec_float) : Prop :=
  match x with
  | S754_zero _ | S754_infinity false | S754_finite false _ _ => True
  | _ => False
  end.

(** An array has at most [2 ^ 32 - 1] elements. *)
Definition max_array_length : Z := 2 ^ 32 - 1.

(** The number [2] *)
Definition two : spec_float := S754_finite false 4503599627370496 (-51).

Close Scope Z_scope.


Definition asc (a b : float) : Prop := PrimFloat.leb a b = true.

Definition ascending (a b : float) : float := (a - b)%float.

Definition no_NaN (l : list float) : Prop := Forall (fun n => isNaN n = false) l.

(** A column with no infinite value (and no [NaN]) *)
Definition all_finite (l : list float) : Prop := Forall (fun n => is_finite n = true) l.


Definition is_number (v : value) : bool := match v with VNum _ => true | _ => false end.


(** The record [computeFullStats] builds from the coerced column. *)
Definition stats_of (nums : list float) : stats :=
  let count := List.length nums in
  let sum := fold_left add nums 0%float in
  let avg := (sum / of_nat count)%float in
  let sorted := sort ascending nums in
  let min := at_index sorted 0 in
  let max := at_index sorted (count - 1) in
  let median :=
    if negb (Nat.eqb (count mod 2) 0) then at_index sorted (count / 2)
    else ((at_index sorted (count / 2 - 1) + at_index sorted (count / 2)) / 2)%float in
  let variance :=
    (fold_left (fun a b => a + Math_pow2 (b - avg)) nums 0 / of_nat count)%float in
  {| mean := avg; median := median; variance := variance; stdDev := Math_sqrt variance;
     min := min; max := max; range := (max - min)%float;
     peak := max; lowPoint := min; sum := sum; count := count |}.

Definition odd_count (n : nat) : bool := negb (Nat.eqb (n mod 2) 0).

(** Decimal strings too large for a binary64 number. *)
Definition nine_e307 : string := "9" ++ str (repeat "0"%char 307).
Definition one_e309 : string := "1" ++ str (repeat "0"%char 309).

(** The sums of the Pearson formula of [computeCorrelation]. *)
Definition coerced (data : list row) (field : string) : list float :=
  map (fun d => parseVal (cell d field)) data.

Definition sum_of (l : list float) : float := fold_left add l 0%float.
Definition sum_sq (l : list float) : float := fold_left (fun a v => a + v * v)%float l 0%float.
Definition sum_prod (l1 l2 : list float) : float :=
  fold_left (fun a vw => a + fst vw * snd vw)%float (combine l1 l2) 0%float.

Definition pearson_numerator (data : list row) (x y : string) : float :=
  (of_nat (List.length data) * sum_prod (coerced data x) (coerced data y)
   - sum_of (coerced data x) * sum_of (coerced data y))%float.

Definition pearson_denominator (data : list row) (x y : string) : float :=
  Math_sqrt
    ((of_nat (List.length data) * sum_sq (coerced data x)
      - sum_of (coerced data x) * sum_of (coerced data x))
     * (of_nat (List.length data) * sum_sq (coerced data y)
        - sum_of (coerced data y) * sum_of (coerced data y)))%float.

Definition two_columns (a b : list string) : list row :=
  map (fun ab => [("a", VStr (fst ab)); ("b", VStr (snd ab))]) (combine a b).






(** The keys of a list, each at its first occurrence. *)
Definition mem (k : string) (l : list string) : bool := existsb (String.eqb k) l.

Definition add_key (seen : list string) (k : string) : list string :=
  if mem k seen then seen else (seen ++ [k])%list.







(** ** The statements of the specification, as it words them *)

Module Spec.

Import ReasoningEngine AppCore.

(** The three advisory rules as the specification lists them, and the
    fallback. *)
Definition advisory_actions (st : stats) (sh : shifts) : list string :=
  let fired :=
    ((if gt (concentration_of st) 40 then ["DIVERSIFY"] else [])
     ++ (if gt (Math_abs (volShift sh)) 15 then ["MONITOR"] else [])
     ++ (if gt (stdDev st / mean st) 1.2 then ["REDUCE"] else []))%list in
  match fired with
  | [] => ["MAINTAIN"]
  | _ => fired
  end.

(** The concentration of the specification: [max / sum] as a percentage,
    the denominator replaced by [1] when [sum == 0]. *)
Definition concentration (st : stats) : float :=
  (max st / (if PrimFloat.eqb (sum st) 0 then 1 else sum st) * 100)%float.


(** The three severities of the impact matrix of the specification. *)
Definition severities (st : stats) (correlation : float) : list string :=
  [if gt (max st) (mean st * 5) then "High Impact" else "Medium Impact";
   if gt (Math_abs (stdDev st / mean st)) 0.8 then "Critical Risk" else "Stable";
   if gt (Math_abs correlation) 0.7 then "Operationally Critical" else "Weak Correlation"].


(** The completeness predicate of the specification. *)
Definition complete (r : result) (s : snapshots) : bool :=
  match reportSections r with Some (_ :: _) => true | _ => false end
  && is_some (r_statisticsModel r)
  && present (reportChart s)
  && Nat.leb 1 (List.length (r_impactMatrix r))
  && match r_advisory r with Some (_ :: _) => true | _ => false end.

(** [categoricalAggregation] as the specification words it: the key is
    the stringified, trimmed category value; rows whose key is empty or
    case-insensitively "null" are left out; the coerced metric is summed
    per key; the pairs are sorted by descending sum, ties in the order of
    first encounter. *)
Definition category (x : string) (d : row) : string := trim (ToString (cell d x)).



End Spec.

(** Sample data for the closed statements. *)
Definition cells (vs : list string) : list row := map (fun v => [("v", VStr v)]) vs.

Definition sample_dataset : DataEngine.dataset :=
  {| DataEngine.id := "ds_a"; DataEngine.name := "a.csv";
     DataEngine.data := cells ["1"; "2"];
     DataEngine.headers := ["v"];
     DataEngine.dschema := {| DataEngine.numerical := ["v"];
                              DataEngine.categorical := [];
                              DataEngine.temporal := [] |};
     DataEngine.hash := "" |}.

Definition sample_state : DataEngine.state :=
  {| DataEngine.datasetCollection := [("ds_a", sample_dataset)];
     DataEngine.masterData := cells ["7"] |}.






Definition no_shift : shifts := {| volShift := 0; peakShift := 0 |}.


Definition fresh_engine : engine :=
  {| auditHistory := []; lastAnalysisHash := None; savedAudits := [] |}.






(** ** Further closed forms and samples *)




(** The columns [discoverSchema] takes for numeric, and for dates: those
    whose cells in the first ten rows all pass the test. *)
Definition numeric_column (data : list row) (h : string) : bool :=
  forallb DataEngine.numeric_sample (map (fun d => cell d h) (firstn 10 data)).

Definition date_column (Date_parse : string -> float) (data : list row) (h : string) : bool :=
  forallb (DataEngine.date_sample Date_parse) (map (fun d => cell d h) (firstn 10 data)).

(** A cleaned table has coordinates when its first row has a numeric
    column and a column that is not numeric. *)
Definition coordinates (clean : list row) : bool :=
  existsb (numeric_column clean) (keys (hd [] clean))
  && existsb (fun h => negb (numeric_column clean h)) (keys (hd [] clean)).

(** What the cleaning leaves in a property: a trimmed key and a trimmed
    string. *)
Definition clean_property (e : string * value) : Prop :=
  trim (fst e) = fst e /\ exists s, snd e = VStr s /\ trim s = s.

(** A date parser that reads no date *)
Definition no_parser (s : string) : float := nan.

(** Parsed rows with a category and a number *)
Definition two_column_rows : list row :=
  [[("k", VStr " a "); ("v", VStr "1")]; [("k", VStr "b"); ("v", VStr "2")]].

Definition empty_state : DataEngine.state :=
  {| DataEngine.datasetCollection := []; DataEngine.masterData := [] |}.

(** The data engine after these rows are stored, and the dataset stored *)
Definition stored_state : DataEngine.state :=
  Eval vm_compute in
    fst (DataEngine.storeDataset no_parser "ds_1" "a.csv" two_column_rows empty_state).

Definition stored_dataset : DataEngine.dataset :=
  Eval vm_compute in
    match snd (DataEngine.storeDataset no_parser "ds_1" "a.csv" two_column_rows empty_state) with
    | DataEngine.Stored ds => ds
    | _ => {| DataEngine.id := ""; DataEngine.name := ""; DataEngine.data := [];
              DataEngine.headers := []; DataEngine.dschema := DataEngine.no_schema;
              DataEngine.hash := "" |}
    end.

(** ** Facts about binary64 numbers *)

Lemma isNaN_iff : forall x, isNaN x = true <-> Prim2SF x = S754_nan.
Proof.
  intros x. unfold isNaN. rewrite eqb_spec. unfold SFeqb.
  destruct (Prim2SF x) eqn:E; simpl; try (split; [discriminate|discriminate]).
  - destruct s; simpl; split; discriminate.
  - split; reflexivity.
  - rewrite Z.compare_refl, Pos.compare_cont_refl. destruct s; simpl; split; discriminate.
Qed.

Lemma isNaN_nan : forall x, isNaN x = true <-> x = nan.
Proof.
  intros x. rewrite isNaN_iff. split.
  - intros H. rewrite <- (SF2Prim_Prim2SF x), H. reflexivity.
  - intros ->. reflexivity.
Qed.


Lemma SFcompare_key :
  forall x y, x <> S754_nan -> y <> S754_nan -> SFcompare x y = Some (lexc (key x) (key y)).
Proof.
  intros [[]|[]| |[] m1 e1] [[]|[]| |[] m2 e2] Hx Hy; try congruence; try reflexivity;
    unfold SFcompare, key, lexc.
  change (-1 ?= -1)%Z with Eq. rewrite Z.compare_opp.
  rewrite (Z.compare_antisym e1 e2).
  destruct (e1 ?= e2)%Z; reflexivity.
Qed.

Lemma lexc_le : forall k1 k2, lexc k1 k2 <> Gt <-> kle k1 k2.
Proof.
  intros [[a1 b1] c1] [[a2 b2] c2]. unfold lexc, kle.
  destruct (Z.compare_spec a1 a2); [|split; [lia|congruence]|split; [congruence|lia]].
  destruct (Z.compare_spec b1 b2); [|split; [lia|congruence]|split; [congruence|lia]].
  destruct (Z.compare_spec c1 c2); split; try lia; try congruence.
Qed.

Lemma lexc_lt : forall k1 k2, lexc k1 k2 = Lt <-> klt k1 k2.
Proof.
  intros [[a1 b1] c1] [[a2 b2] c2]. unfold lexc, klt.
  destruct (Z.compare_spec a1 a2); [|split; [lia|congruence]|split; [congruence|lia]].
  destruct (Z.compare_spec b1 b2); [|split; [lia|congruence]|split; [congruence|lia]].
  destruct (Z.compare_spec c1 c2); split; try lia; try congruence.
Qed.

Lemma leb_key : forall x y, isNaN x = false -> isNaN y = false ->
  (PrimFloat.leb x y = true <-> kle (fkey x) (fkey y)).
Proof.
  intros x y Hx Hy. rewrite leb_spec. unfold SFleb, fkey.
  rewrite SFcompare_key.
  - rewrite <- lexc_le. destruct (lexc _ _); split; congruence.
  - intros E. apply isNaN_iff in E. congruence.
  - intros E. apply isNaN_iff in E. congruence.
Qed.

Lemma ltb_key : forall x y, isNaN x = false -> isNaN y = false ->
  (PrimFloat.ltb x y = true <-> klt (fkey x) (fkey y)).
Proof.
  intros x y Hx Hy. rewrite ltb_spec. unfold SFltb, fkey.
  rewrite SFcompare_key.
  - rewrite <- lexc_lt. destruct (lexc _ _); split; congruence.
  - intros E. apply isNaN_iff in E. congruence.
  - intros E. apply isNaN_iff in E. congruence.
Qed.

Lemma kle_trans : forall a b c, kle a b -> kle b c -> kle a c.
Proof. intros [[? ?] ?] [[? ?] ?] [[? ?] ?]; unfold kle; lia. Qed.

Lemma klt_not_kle : forall a b, klt b a <-> ~ kle a b.
Proof. intros [[? ?] ?] [[? ?] ?]; unfold kle, klt; lia. Qed.

Lemma leb_trans : forall x y z, PrimFloat.leb x y = true -> PrimFloat.leb y z = true ->
  PrimFloat.leb x z = true.
Proof.
  intros x y z Hxy Hyz.
  assert (Hx : isNaN x = false).
  { destruct (isNaN x) eqn:E; [|reflexivity]. apply isNaN_iff in E.
    rewrite leb_spec, E in Hxy. discriminate. }
  assert (Hy : isNaN y = false).
  { destruct (isNaN y) eqn:E; [|reflexivity]. apply isNaN_iff in E.
    rewrite leb_spec, E in Hyz. discriminate. }
  assert (Hz : isNaN z = false).
  { destruct (isNaN z) eqn:E; [|reflexivity]. apply isNaN_iff in E.
    rewrite leb_spec, E in Hyz. unfold SFleb in Hyz.
    destruct (Prim2SF y) as [[]|[]| |[] ? ?]; discriminate. }
  apply leb_key; auto. apply leb_key in Hxy; auto. apply leb_key in Hyz; auto.
  eapply kle_trans; eauto.
Qed.

Lemma ltb_negb_leb : forall x y, isNaN x = false -> isNaN y = false ->
  PrimFloat.ltb y x = negb (PrimFloat.leb x y).
Proof.
  intros x y Hx Hy.
  destruct (PrimFloat.leb x y) eqn:L; simpl.
  - apply leb_key in L; auto.
    destruct (PrimFloat.ltb y x) eqn:T; [|reflexivity].
    apply ltb_key in T; auto. apply klt_not_kle in T. contradiction.
  - apply ltb_key; auto. apply klt_not_kle. intros H. apply leb_key in H; auto. congruence.
Qed.

Local Open Scope Z_scope.

Lemma digits2_bounds : forall p,
  2 ^ (Zpos (digits2_pos p) - 1) <= Zpos p < 2 ^ Zpos (digits2_pos p).
Proof.
  induction p as [p IH|p IH|]; cbn [digits2_pos].
  - rewrite Pos2Z.inj_succ. replace (Z.succ (Zpos (digits2_pos p)) - 1) with (Zpos (digits2_pos p)) by lia.
    rewrite Z.pow_succ_r by lia.
    replace (2 ^ Zpos (digits2_pos p)) with (2 * 2 ^ (Zpos (digits2_pos p) - 1)) in *
      by (rewrite <- Z.pow_succ_r by lia; f_equal; lia).
    lia.
  - rewrite Pos2Z.inj_succ. replace (Z.succ (Zpos (digits2_pos p)) - 1) with (Zpos (digits2_pos p)) by lia.
    rewrite Z.pow_succ_r by lia.
    replace (2 ^ Zpos (digits2_pos p)) with (2 * 2 ^ (Zpos (digits2_pos p) - 1)) in *
      by (rewrite <- Z.pow_succ_r by lia; f_equal; lia).
    lia.
  - simpl. lia.
Qed.

Lemma shr_1_m : forall r, 0 <= shr_m r -> shr_m (shr_1 r) = shr_m r / 2.
Proof.
  intros [m r s] H. cbn [shr_m] in *. rewrite <- Z.div2_div.
  destruct m as [|[p|p|]|p]; try reflexivity. lia.
Qed.

Lemma iter_shr_m : forall p r, 0 <= shr_m r ->
  shr_m (iter_pos shr_1 p r) = shr_m r / 2 ^ Zpos p.
Proof.
  induction p as [p IH|p IH|]; intros r H; cbn [iter_pos].
  - assert (H1 : 0 <= shr_m (shr_1 r)) by (rewrite shr_1_m by assumption; apply Z.div_pos; lia).
    assert (H2 : 0 <= shr_m (iter_pos shr_1 p (shr_1 r))).
    { rewrite IH by assumption. apply Z.div_pos; [assumption|]. apply Z.pow_pos_nonneg; lia. }
    rewrite IH, IH, shr_1_m by assumption.
    rewrite !Z.div_div by (try apply Z.pow_pos_nonneg; lia).
    f_equal. rewrite (Pos2Z.inj_xI p).
    replace (2 * Zpos p + 1) with (1 + Zpos p + Zpos p) by lia.
    rewrite !Z.pow_add_r by lia. change (2 ^ 1) with 2. ring.
  - assert (H2 : 0 <= shr_m (iter_pos shr_1 p r)).
    { rewrite IH by assumption. apply Z.div_pos; [assumption|]. apply Z.pow_pos_nonneg; lia. }
    rewrite IH, IH by assumption.
    rewrite !Z.div_div by (try apply Z.pow_pos_nonneg; lia).
    f_equal. rewrite (Pos2Z.inj_xO p).
    replace (2 * Zpos p) with (Zpos p + Zpos p) by lia.
    rewrite Z.pow_add_r by lia. reflexivity.
  - rewrite shr_1_m by assumption. reflexivity.
Qed.

Lemma shr_record_of_loc_m : forall m l, shr_m (shr_record_of_loc m l) = m.
Proof. intros m [|[]]; reflexivity. Qed.

Lemma shr_fexp_pos : forall p e l,
  emin <= e ->
  0 < shr_m (fst (shr_fexp prec emax (Zpos p) e l))
  /\ emin <= snd (shr_fexp prec emax (Zpos p) e l).
Proof.
  intros p e l He. unfold shr_fexp, shr. cbn [Zdigits2].
  pose proof (digits2_bounds p) as Hd.
  set (d := Zpos (digits2_pos p)) in *.
  destruct (fexp prec emax (d + e) - e) as [|n|n] eqn:En; cbn [fst snd];
    rewrite ?shr_record_of_loc_m; try (split; lia).
  rewrite iter_shr_m by (rewrite shr_record_of_loc_m; lia).
  rewrite shr_record_of_loc_m.
  unfold fexp, SpecFloat.emin, prec, emax in *.
  assert (Hn : Zpos n <= d - 1) by lia.
  split; [|lia].
  apply Z.div_str_pos. split; [apply Z.pow_pos_nonneg; lia|].
  apply Z.le_trans with (2 ^ (d - 1)); [|lia].
  apply Z.pow_le_mono_r; lia.
Qed.

Lemma shr_fexp_nonneg : forall m e l,
  0 <= m -> 0 <= shr_m (fst (shr_fexp prec emax m e l)).
Proof.
  intros m e l Hm. unfold shr_fexp, shr.
  destruct (fexp prec emax (Zdigits2 m + e) - e) as [|n|n]; cbn [fst];
    rewrite ?shr_record_of_loc_m; try lia.
  rewrite iter_shr_m by (rewrite shr_record_of_loc_m; lia).
  rewrite shr_record_of_loc_m. apply Z.div_pos; [lia|apply Z.pow_pos_nonneg; lia].
Qed.

Lemma round_nearest_even_bounds : forall m l,
  m <= round_nearest_even m l <= m + 1.
Proof.
  intros m [|[]]; cbn [round_nearest_even]; try lia.
  destruct (Z.even m); lia.
Qed.

Lemma binary_round_aux_signed : forall s m e l,
  0 <= m -> signed s (binary_round_aux prec emax s m e l).
Proof.
  intros s m e l Hm. unfold binary_round_aux.
  pose proof (shr_fexp_nonneg m e l Hm) as H1.
  destruct (shr_fexp prec emax m e l) as [r1 e1]. cbn [fst] in H1.
  pose proof (round_nearest_even_bounds (shr_m r1) (loc_of_shr_record r1)) as Hr.
  pose proof (shr_fexp_nonneg (round_nearest_even (shr_m r1) (loc_of_shr_record r1)) e1 loc_Exact
                ltac:(lia)) as H2.
  destruct (shr_fexp prec emax _ e1 loc_Exact) as [r2 e2]. cbn [fst] in H2.
  destruct (shr_m r2) as [|q|q]; [reflexivity| |lia].
  destruct (e2 <=? emax - prec); reflexivity.
Qed.

Lemma binary_round_aux_nonzero : forall s p e l,
  emin <= e -> nonzero s (binary_round_aux prec emax s (Zpos p) e l).
Proof.
  intros s p e l He. unfold binary_round_aux.
  pose proof (shr_fexp_pos p e l He) as [H1 H1e].
  destruct (shr_fexp prec emax (Zpos p) e l) as [r1 e1]. cbn [fst snd] in H1, H1e.
  pose proof (round_nearest_even_bounds (shr_m r1) (loc_of_shr_record r1)) as Hr.
  destruct (round_nearest_even (shr_m r1) (loc_of_shr_record r1)) as [|q|q] eqn:Eq; try lia.
  pose proof (shr_fexp_pos q e1 loc_Exact H1e) as [H2 _].
  destruct (shr_fexp prec emax (Zpos q) e1 loc_Exact) as [r2 e2]. cbn [fst] in H2.
  destruct (shr_m r2) as [|q2|q2]; try lia.
  destruct (e2 <=? emax - prec); reflexivity.
Qed.

Lemma binary_round_nonzero : forall s p e,
  emin <= e -> nonzero s (binary_round prec emax s p e).
Proof.
  intros s p e He. unfold binary_round.
  destruct (shl_align p e (fexp prec emax (Zpos (digits2_pos p) + e))) as [mz ez] eqn:E.
  apply binary_round_aux_nonzero.
  unfold shl_align in E.
  destruct (fexp prec emax (Zpos (digits2_pos p) + e) - e) eqn:E2; inversion E; subst; try lia.
  unfold fexp, SpecFloat.emin, prec, emax in *. lia.
Qed.

Lemma binary_normalize_sign : forall z e,
  emin <= e ->
  match z with
  | Z0 => binary_normalize prec emax z e false = S754_zero false
  | Zpos _ => nonzero false (binary_normalize prec emax z e false)
  | Zneg _ => nonzero true (binary_normalize prec emax z e false)
  end.
Proof.
  intros [|p|p] e He; cbn [binary_normalize]; [reflexivity| |]; apply binary_round_nonzero; assumption.
Qed.

Lemma iter_xO : forall d m, Zpos (Pos.iter xO m d) = Zpos m * 2 ^ Zpos d.
Proof.
  induction d as [|d IH] using Pos.peano_ind; intros m.
  - simpl. lia.
  - rewrite Pos.iter_succ, Pos2Z.inj_xO, IH, Pos2Z.inj_succ, Z.pow_succ_r by lia. ring.
Qed.

Lemma shl_align_value : forall m e ez,
  ez <= e -> Zpos (fst (shl_align m e ez)) = Zpos m * 2 ^ (e - ez).
Proof.
  intros m e ez H. unfold shl_align.
  destruct (ez - e) as [|d|d] eqn:E; cbn [fst]; try lia.
  - replace (e - ez) with 0 by lia. simpl. lia.
  - rewrite iter_xO. f_equal. f_equal. lia.
Qed.

Lemma bounded_facts : forall m e,
  bounded prec emax m e = true ->
  emin <= e /\ Zpos m < 2 ^ prec /\ (emin < e -> 2 ^ (prec - 1) <= Zpos m).
Proof.
  intros m e H. unfold bounded, canonical_mantissa in H.
  apply andb_prop in H as [H _]. apply Z.eqb_eq in H.
  pose proof (digits2_bounds m) as Hd.
  set (d := Zpos (digits2_pos m)) in *.
  unfold fexp, SpecFloat.emin, prec, emax in *.
  split; [lia|]. split.
  - apply Z.lt_le_trans with (2 ^ d); [lia|]. apply Z.pow_le_mono_r; lia.
  - intros He. assert (d = 53) by lia. replace (53 - 1) with (d - 1) by lia. lia.
Qed.

Lemma mant_lt : forall m1 e1 m2 e2,
  bounded prec emax m1 e1 = true -> bounded prec emax m2 e2 = true ->
  e1 < e2 -> Zpos m1 < Zpos m2 * 2 ^ (e2 - e1).
Proof.
  intros m1 e1 m2 e2 H1 H2 He.
  apply bounded_facts in H1 as (L1 & U1 & _).
  apply bounded_facts in H2 as (L2 & _ & N2).
  specialize (N2 ltac:(lia)).
  assert (2 ^ 1 <= 2 ^ (e2 - e1)) by (apply Z.pow_le_mono_r; lia).
  change (2 ^ 1) with 2 in *.
  change (2 ^ prec) with (2 * 2 ^ (prec - 1)) in U1.
  nia.
Qed.

Lemma lex_mant : forall ma ea mb eb,
  bounded prec emax ma ea = true -> bounded prec emax mb eb = true ->
  match eb ?= ea with
  | Eq => Pos.compare_cont Eq mb ma
  | Lt => Lt
  | Gt => Gt
  end
  = (Zpos (fst (shl_align mb eb (Z.min ea eb))) ?= Zpos (fst (shl_align ma ea (Z.min ea eb)))).
Proof.
  intros ma ea mb eb Ha Hb.
  rewrite !shl_align_value by lia.
  destruct (Z.compare_spec eb ea) as [E|E|E].
  - subst. rewrite Z.min_id, Z.sub_diag. simpl (2 ^ 0). rewrite !Z.mul_1_r. reflexivity.
  - rewrite Z.min_r by lia. rewrite Z.sub_diag. simpl (2 ^ 0). rewrite Z.mul_1_r.
    symmetry. apply Z.compare_lt_iff. apply mant_lt; assumption.
  - rewrite Z.min_l by lia. rewrite Z.sub_diag. simpl (2 ^ 0). rewrite Z.mul_1_r.
    symmetry. apply Z.compare_gt_iff. apply mant_lt; assumption.
Qed.

Lemma SFltb_zero_nonzero : forall s x, nonzero s x -> SFltb (S754_zero false) x = negb s.
Proof. intros s [?|?| |? ? ?] H; simpl in H; try contradiction; subst; destruct s; reflexivity. Qed.

Lemma SFltb_zero_normalize : forall z e,
  emin <= e ->
  SFltb (S754_zero false) (binary_normalize prec emax z e false) = (0 <? z).
Proof.
  intros z e He. pose proof (binary_normalize_sign z e He) as H.
  destruct z; [rewrite H; reflexivity| |]; rewrite (SFltb_zero_nonzero _ _ H); reflexivity.
Qed.

Lemma SFsub_sign : forall x y,
  valid_binary x = true -> valid_binary y = true ->
  x <> S754_nan -> y <> S754_nan ->
  SFltb (S754_zero false) (SFsub prec emax x y) = SFltb y x.
Proof.
  intros [[]|[]| |sa ma ea] [[]|[]| |sb mb eb] Vx Vy Nx Ny; try congruence;
    try reflexivity; try (destruct sa; reflexivity); try (destruct sb; reflexivity).
  cbn [valid_binary] in Vx, Vy.
  pose proof (bounded_facts _ _ Vx) as (La & _).
  pose proof (bounded_facts _ _ Vy) as (Lb & _).
  cbn [SFsub]. rewrite SFltb_zero_normalize by lia.
  unfold SFltb, SFcompare.
  pose proof (lex_mant ma ea mb eb Vx Vy) as HL.
  set (A := Zpos (fst (shl_align ma ea (Z.min ea eb)))) in *.
  set (B := Zpos (fst (shl_align mb eb (Z.min ea eb)))) in *.
  assert (HA : 0 < A) by (unfold A; lia).
  assert (HB : 0 < B) by (unfold B; lia).
  destruct sa, sb; cbn [cond_Zopp];
    destruct (eb ?= ea) eqn:Ec; rewrite ?HL;
    destruct (Z.compare_spec B A) as [E|E|E]; try discriminate HL; cbn [CompOpp];
    match goal with
    | |- (0 <? ?z)%Z = _ => destruct (Z.ltb_spec 0 z)
    end; try reflexivity; lia.
Qed.

Close Scope Z_scope.

Lemma sub_gt_zero : forall a b, isNaN a = false -> isNaN b = false ->
  gt (a - b)%float 0 = PrimFloat.ltb b a.
Proof.
  intros a b Ha Hb. unfold gt. rewrite !ltb_spec, sub_spec.
  change (Prim2SF 0) with (S754_zero false).
  apply SFsub_sign; try apply Prim2SF_valid.
  - intros E. apply isNaN_iff in E. congruence.
  - intros E. apply isNaN_iff in E. congruence.
Qed.





Lemma SFsqrt_nonneg : forall x,
  SFsqrt prec emax x = S754_nan \/ SFleb (S754_zero false) (SFsqrt prec emax x) = true.
Proof.
  intros [[]|[]| |[] m e]; cbn [SFsqrt]; auto.
  right. unfold SFsqrt_core_binary.
  set (m' := match (e - 2 * _)%Z with Z0 => _ | Zpos _ => _ | Zneg _ => _ end).
  assert (Hm : (0 <= m')%Z).
  { unfold m'. destruct (e - 2 * _)%Z; try lia. apply Z.shiftl_nonneg. lia. }
  pose proof (Z.sqrtrem_spec m' Hm) as Hs.
  destruct (Z.sqrtrem m') as [q r].
  match goal with
  | |- SFleb _ (binary_round_aux _ _ ?s ?mz ?ez ?lz) = true =>
      pose proof (binary_round_aux_signed s mz ez lz ltac:(lia)) as Hr;
      destruct (binary_round_aux prec emax s mz ez lz) as [?|?| |? ? ?]
  end; simpl in Hr; try contradiction; subst; reflexivity.
Qed.

Lemma sqrt_nonneg : forall x, isNaN (Math_sqrt x) = true \/ le 0 (Math_sqrt x) = true.
Proof.
  intros x. unfold Math_sqrt, le. rewrite isNaN_iff, leb_spec, sqrt_spec.
  change (Prim2SF 0) with (S754_zero false). apply SFsqrt_nonneg.
Qed.

Local Open Scope Z_scope.

Lemma pow2_pos : forall k, 0 <= k -> 0 < 2 ^ k.
Proof. intros. apply Z.pow_pos_nonneg; lia. Qed.

Lemma pow2_split : forall a b, 0 <= a -> 0 <= b -> 2 ^ (a + b) = 2 ^ a * 2 ^ b.
Proof. intros. apply Z.pow_add_r; lia. Qed.

Lemma shr_1_exact : forall r,
  0 <= shr_m r -> shr_r r = false -> shr_s r = false -> Z.even (shr_m r) = true ->
  shr_r (shr_1 r) = false /\ shr_s (shr_1 r) = false.
Proof.
  intros [m r s] Hm Hr Hs He. cbn [shr_m shr_r shr_s] in *. subst.
  destruct m as [|[p|p|]|p]; try discriminate; try lia; split; reflexivity.
Qed.

Lemma even_of_divide : forall m k, 0 < k -> (2 ^ k | m) -> Z.even m = true.
Proof.
  intros m k Hk [c Hc]. subst. replace k with (1 + (k - 1)) by lia.
  rewrite pow2_split by lia. change (2 ^ 1) with 2.
  rewrite Z.mul_assoc, Z.even_mul, Z.even_mul. simpl. rewrite !orb_true_r. reflexivity.
Qed.

Lemma divide_div : forall m a b, 0 <= a -> 0 <= b -> (2 ^ (a + b) | m) -> (2 ^ b | m / 2 ^ a).
Proof.
  intros m a b Ha Hb [c Hc]. subst. exists c.
  rewrite pow2_split by lia.
  replace (c * (2 ^ a * 2 ^ b)) with (c * 2 ^ b * 2 ^ a) by ring.
  apply Z.div_mul. pose proof (pow2_pos a Ha). lia.
Qed.

Lemma divide_weaken : forall m a b, 0 <= a -> 0 <= b -> (2 ^ (a + b) | m) -> (2 ^ a | m).
Proof.
  intros m a b Ha Hb [c Hc]. subst. exists (c * 2 ^ b). rewrite pow2_split by lia. ring.
Qed.

Lemma iter_shr_exact : forall p r,
  0 <= shr_m r -> shr_r r = false -> shr_s r = false -> (2 ^ Zpos p | shr_m r) ->
  shr_r (iter_pos shr_1 p r) = false /\ shr_s (iter_pos shr_1 p r) = false.
Proof.
  induction p as [p IH|p IH|]; intros r Hm Hr Hs Hd; cbn [iter_pos].
  - rewrite (Pos2Z.inj_xI p) in Hd.
    destruct (shr_1_exact r Hm Hr Hs) as [Hr1 Hs1].
    { apply (even_of_divide _ (2 * Zpos p + 1)); [lia|assumption]. }
    assert (Hm1 : 0 <= shr_m (shr_1 r)) by (rewrite shr_1_m by assumption; apply Z.div_pos; lia).
    assert (Hd1 : (2 ^ (Zpos p + Zpos p) | shr_m (shr_1 r))).
    { rewrite shr_1_m by assumption. change 2 with (2 ^ 1) at 2.
      apply divide_div; try lia. replace (1 + (Zpos p + Zpos p)) with (2 * Zpos p + 1) by lia.
      assumption. }
    destruct (IH (shr_1 r) Hm1 Hr1 Hs1) as [Hr2 Hs2].
    { apply divide_weaken in Hd1; try lia. assumption. }
    apply IH; try assumption.
    + rewrite iter_shr_m by assumption. apply Z.div_pos; [assumption|apply pow2_pos; lia].
    + rewrite iter_shr_m by assumption. apply divide_div; try lia. assumption.
  - rewrite (Pos2Z.inj_xO p) in Hd.
    assert (Hd1 : (2 ^ (Zpos p + Zpos p) | shr_m r)).
    { replace (Zpos p + Zpos p) with (2 * Zpos p) by lia. assumption. }
    destruct (IH r Hm Hr Hs) as [Hr2 Hs2].
    { apply divide_weaken in Hd1; try lia. assumption. }
    apply IH; try assumption.
    + rewrite iter_shr_m by assumption. apply Z.div_pos; [assumption|apply pow2_pos; lia].
    + rewrite iter_shr_m by assumption. apply divide_div; try lia. assumption.
  - apply shr_1_exact; try assumption. apply (even_of_divide _ 1); [lia|assumption].
Qed.

Lemma loc_of_exact : forall r, shr_r r = false -> shr_s r = false -> loc_of_shr_record r = loc_Exact.
Proof. intros [m r s] Hr Hs. cbn in *. subst. reflexivity. Qed.

(** Above a mantissa of full width, the grid is no finer than the
    mantissa's last place *)
Lemma grid_step : forall B m g,
  on_grid B -> 2 ^ (prec - 1) <= m -> 0 <= g -> m * 2 ^ g < B ->
  (m + 1) * 2 ^ g <= B.
Proof.
  intros B m g (mb & k & -> & Hmb & Hk) Hm Hg HB.
  change (2 ^ prec) with (2 * 2 ^ (prec - 1)) in Hmb.
  pose proof (pow2_pos g Hg) as Pg. pose proof (pow2_pos k Hk) as Pk.
  assert (Hkg : g <= k).
  { destruct (Z_le_gt_dec g k) as [H|H]; [assumption|exfalso].
    replace g with (k + (g - k)) in HB, Pg by lia. rewrite pow2_split in HB, Pg by lia.
    assert (2 ^ 1 <= 2 ^ (g - k)) by (apply Z.pow_le_mono_r; lia).
    change (2 ^ 1) with 2 in *. nia. }
  replace k with (g + (k - g)) in HB |- * by lia. rewrite pow2_split in HB |- * by lia.
  set (G := 2 ^ g) in *. set (K := 2 ^ (k - g)) in *.
  assert (m < mb * K).
  { apply (Z.mul_lt_mono_pos_r G); [assumption|]. rewrite <- Z.mul_assoc, (Z.mul_comm K G). exact HB. }
  rewrite Z.mul_assoc, (Z.mul_comm mb G), <- Z.mul_assoc, (Z.mul_comm G (mb * K)).
  apply Z.mul_le_mono_nonneg_r; lia.
Qed.

Lemma digits_range : forall q lo hi,
  0 <= lo -> 2 ^ lo <= Zpos q -> Zpos q < 2 ^ hi ->
  lo < Zpos (digits2_pos q) <= hi.
Proof.
  intros q lo hi Hlo H1 H2. pose proof (digits2_bounds q) as Hd.
  set (d := Zpos (digits2_pos q)) in *. split.
  - destruct (Z_lt_le_dec lo d) as [H|H]; [assumption|exfalso].
    assert (2 ^ d <= 2 ^ lo) by (apply Z.pow_le_mono_r; lia). lia.
  - destruct (Z_le_gt_dec d hi) as [H|H]; [assumption|exfalso].
    assert (2 ^ hi <= 2 ^ (d - 1)) by (apply Z.pow_le_mono_r; lia). lia.
Qed.

(** Rounding a mantissa of full width up may carry into one more bit; the
    second shift of [binary_round_aux] then drops a zero bit. *)
Lemma shr_fexp_canon : forall m e,
  2 ^ (prec - 1) <= m <= 2 ^ prec -> emin <= e ->
  shr_m (fst (shr_fexp prec emax m e loc_Exact))
    * 2 ^ (snd (shr_fexp prec emax m e loc_Exact) - e) = m
  /\ e <= snd (shr_fexp prec emax m e loc_Exact).
Proof.
  intros m e Hm He. unfold shr_fexp, shr.
  destruct m as [|q|q]; try (change (2 ^ (prec - 1)) with 4503599627370496 in Hm; lia).
  cbn [Zdigits2].
  destruct (Z.eq_dec (Zpos q) (2 ^ prec)) as [E|E].
  - assert (Hd : prec < Zpos (digits2_pos q) <= prec + 1).
    { apply digits_range; [unfold prec; lia|lia|]. rewrite E. apply Z.pow_lt_mono_r; unfold prec; lia. }
    assert (Hd' : Zpos (digits2_pos q) = prec + 1) by lia. rewrite Hd'.
    replace (fexp prec emax (prec + 1 + e) - e) with 1
      by (unfold fexp, SpecFloat.emin, prec, emax in *; lia).
    cbn [iter_pos fst snd]. rewrite shr_1_m by (cbn; lia). cbn [shr_record_of_loc shr_m].
    replace (e + 1 - e) with 1 by lia. rewrite E. split; [reflexivity|lia].
  - assert (Hd : prec - 1 < Zpos (digits2_pos q) <= prec).
    { apply digits_range; [unfold prec; lia|lia|lia]. }
    assert (Hd' : Zpos (digits2_pos q) = prec) by lia. rewrite Hd'.
    replace (fexp prec emax (prec + e) - e) with 0
      by (unfold fexp, SpecFloat.emin, prec, emax in *; lia).
    cbn [fst snd shr_record_of_loc shr_m]. rewrite Z.sub_diag. simpl (2 ^ 0). split; lia.
Qed.

(** Rounding an exact value to nearest never crosses a value the
    precision can represent. *)
Lemma round_aux_between : forall s p e s' m' e',
  emin <= e ->
  binary_round_aux prec emax s (Zpos p) e loc_Exact = S754_finite s' m' e' ->
  s' = s /\ emin <= e'
  /\ forall B, on_grid B ->
       (Zpos p * 2 ^ (e - emin) <= B -> Zpos m' * 2 ^ (e' - emin) <= B)
       /\ (B <= Zpos p * 2 ^ (e - emin) -> B <= Zpos m' * 2 ^ (e' - emin)).
Proof.
  intros s p e s' m' e' He. unfold binary_round_aux.
  pose proof (digits2_bounds p) as Hd.
  destruct (fexp prec emax (Zpos (digits2_pos p) + e) - e) as [|n|n] eqn:En.
  - unfold shr_fexp. cbn [Zdigits2]. rewrite En.
    cbn [shr shr_record_of_loc loc_of_shr_record shr_m round_nearest_even Zdigits2].
    rewrite En. cbn [shr shr_record_of_loc shr_m].
    destruct (e <=? emax - prec); [|discriminate]. intros H. injection H as <- <- <-.
    split; [reflexivity|]. split; [assumption|]. intros B _. split; auto.
  - set (d := Zpos (digits2_pos p)) in *.
    assert (Hn : Zpos n = d - prec) by (unfold fexp, SpecFloat.emin, prec, emax in *; lia).
    unfold shr_fexp at 1. cbn [Zdigits2]. fold d. rewrite En. cbn [shr].
    set (r1 := iter_pos shr_1 n (shr_record_of_loc (Zpos p) loc_Exact)).
    assert (Hm1 : shr_m r1 = Zpos p / 2 ^ Zpos n).
    { unfold r1. rewrite iter_shr_m by (cbn; lia). reflexivity. }
    pose proof (pow2_pos (Zpos n) ltac:(lia)) as Pn.
    pose proof (Z.div_mod (Zpos p) (2 ^ Zpos n) ltac:(lia)) as Hdm.
    pose proof (Z.mod_pos_bound (Zpos p) (2 ^ Zpos n) Pn) as Hrho.
    set (rho := Zpos p mod 2 ^ Zpos n) in *. rewrite <- Hm1 in Hdm.
    set (m1 := shr_m r1) in *.
    assert (Hb1 : 2 ^ (prec - 1) <= m1 < 2 ^ prec).
    { replace (d - 1) with (prec - 1 + Zpos n) in Hd by lia.
      replace d with (prec + Zpos n) in Hd by lia.
      rewrite !pow2_split in Hd by (unfold prec; lia).
      rewrite Hm1. split.
      - apply Z.div_le_lower_bound; lia.
      - apply Z.div_lt_upper_bound; lia. }
    pose proof (round_nearest_even_bounds m1 (loc_of_shr_record r1)) as Hr.
    assert (Hex : rho = 0 -> round_nearest_even m1 (loc_of_shr_record r1) = m1).
    { intros E. destruct (iter_shr_exact n (shr_record_of_loc (Zpos p) loc_Exact)) as [A1 A2];
        try reflexivity; [cbn; lia| |].
      - cbn [shr_record_of_loc shr_m]. exists m1. lia.
      - fold r1 in A1, A2. rewrite (loc_of_exact r1 A1 A2). reflexivity. }
    set (m2 := round_nearest_even m1 (loc_of_shr_record r1)) in *.
    destruct (shr_fexp_canon m2 (e + Zpos n)) as [Hc He2]; [lia|lia|].
    destruct (shr_fexp prec emax m2 (e + Zpos n) loc_Exact) as [r2 e2]. cbn [fst snd] in Hc, He2.
    destruct (shr_m r2) as [|q|q] eqn:Eq; try discriminate.
    destruct (e2 <=? emax - prec); [|discriminate]. intros H. injection H as <- <- <-.
    split; [reflexivity|]. split; [lia|].
    assert (HR : Zpos q * 2 ^ (e2 - emin) = m2 * 2 ^ (e + Zpos n - emin)).
    { rewrite <- Hc. replace (e2 - emin) with ((e2 - (e + Zpos n)) + (e + Zpos n - emin)) by lia.
      rewrite pow2_split by lia. ring. }
    rewrite HR.
    assert (HN : Zpos p * 2 ^ (e - emin) = (m1 * 2 ^ Zpos n + rho) * 2 ^ (e - emin)).
    { f_equal. lia. }
    rewrite HN.
    replace (e + Zpos n - emin) with (Zpos n + (e - emin)) in * by lia.
    pose proof (pow2_pos (e - emin) ltac:(lia)) as Pu.
    intros B HB.
    pose proof (grid_step B m1 (Zpos n + (e - emin)) HB ltac:(lia) ltac:(lia)) as Hg.
    rewrite pow2_split in * by lia.
    set (U := 2 ^ (e - emin)) in *. set (T := 2 ^ Zpos n) in *.
    assert (PT : 0 < T * U) by (apply Z.mul_pos_pos; assumption).
    assert (P0 : 0 <= rho * U) by (apply Z.mul_nonneg_nonneg; lia).
    assert (P1 : rho * U < T * U) by (apply Z.mul_lt_mono_pos_r; lia).
    assert (P2 : 0 < rho -> 0 < rho * U) by (intros; apply Z.mul_pos_pos; lia).
    replace ((m1 * T + rho) * U) with (m1 * (T * U) + rho * U) by ring.
    replace ((m1 + 1) * (T * U)) with (m1 * (T * U) + T * U) in Hg by ring.
    assert (Hm2 : m2 * (T * U) = m1 * (T * U)
                  \/ (m2 * (T * U) = m1 * (T * U) + T * U /\ 0 < rho)).
    { destruct (Z.eq_dec rho 0) as [E|E]; [left; rewrite (Hex E); reflexivity|].
      assert (E2 : m2 = m1 \/ m2 = m1 + 1) by lia.
      destruct E2 as [->| ->]; [left; reflexivity|right; split; [ring|lia]]. }
    clear Hd Hb1 Hdm HN HR Hc Hex Hr.
    split; intros HBN; destruct Hm2 as [->|[-> Hpos]]; try specialize (P2 Hpos);
      (destruct (Z_le_gt_dec B (m1 * (T * U))) as [H|H]; [|specialize (Hg ltac:(lia))]); lia.
  - unfold shr_fexp. cbn [Zdigits2]. rewrite En.
    cbn [shr shr_record_of_loc loc_of_shr_record shr_m round_nearest_even Zdigits2].
    rewrite En. cbn [shr shr_record_of_loc shr_m].
    destruct (e <=? emax - prec); [|discriminate]. intros H. injection H as <- <- <-.
    split; [reflexivity|]. split; [assumption|]. intros B _. split; auto.
Qed.

Lemma shl_align_snd : forall m e ez, ez <= e -> snd (shl_align m e ez) = ez.
Proof.
  intros m e ez H. unfold shl_align.
  destruct (ez - e) as [|d|d] eqn:E; cbn [snd]; lia.
Qed.

Lemma round_between : forall s p e s' m' e',
  emin <= e ->
  binary_round prec emax s p e = S754_finite s' m' e' ->
  s' = s /\ emin <= e'
  /\ forall B, on_grid B ->
       (Zpos p * 2 ^ (e - emin) <= B -> Zpos m' * 2 ^ (e' - emin) <= B)
       /\ (B <= Zpos p * 2 ^ (e - emin) -> B <= Zpos m' * 2 ^ (e' - emin)).
Proof.
  intros s p e s' m' e' He. unfold binary_round.
  set (f := fexp prec emax (Zpos (digits2_pos p) + e)).
  assert (Hf : emin <= f) by (unfold f, fexp, SpecFloat.emin, prec, emax; lia).
  destruct (Z_le_gt_dec f e) as [L|G].
  - pose proof (shl_align_value p e f L) as Hv. pose proof (shl_align_snd p e f L) as Hs.
    destruct (shl_align p e f) as [mz ez]. cbn [fst snd] in Hv, Hs. subst ez.
    intros H. apply round_aux_between in H; [|assumption].
    replace (Zpos p * 2 ^ (e - emin)) with (Zpos mz * 2 ^ (f - emin)); [exact H|].
    rewrite Hv. replace (e - emin) with ((e - f) + (f - emin)) by lia.
    rewrite pow2_split by lia. ring.
  - unfold shl_align. destruct (f - e) eqn:E; try lia.
    intros H. apply round_aux_between in H; assumption.
Qed.

Lemma normalize_between : forall z e,
  emin <= e -> finite (binary_normalize prec emax z e false) = true ->
  forall B, on_grid (Z.abs B) ->
    (z * 2 ^ (e - emin) <= B -> units (binary_normalize prec emax z e false) <= B)
    /\ (B <= z * 2 ^ (e - emin) -> B <= units (binary_normalize prec emax z e false)).
Proof.
  intros z e He Hfin B HB. pose proof (pow2_pos (e - emin) ltac:(lia)) as Pu.
  destruct z as [|p|p]; cbn [binary_normalize] in *.
  - cbn [units]. lia.
  - pose proof (binary_round_nonzero false p e He) as Hnz.
    destruct (binary_round prec emax false p e) as [?|?| |s' m' e'] eqn:E;
      try discriminate; try contradiction.
    apply round_between in E as (-> & He' & Hb); [|assumption].
    cbn [units cond_Zopp].
    assert (0 < Zpos p * 2 ^ (e - emin)) by (apply Z.mul_pos_pos; lia).
    assert (0 < Zpos m' * 2 ^ (e' - emin)) by (apply Z.mul_pos_pos; [lia|apply pow2_pos; lia]).
    destruct (Z_lt_le_dec B 0) as [N|N]; [lia|].
    rewrite Z.abs_eq in HB by assumption. apply Hb. assumption.
  - pose proof (binary_round_nonzero true p e He) as Hnz.
    destruct (binary_round prec emax true p e) as [?|?| |s' m' e'] eqn:E;
      try discriminate; try contradiction.
    apply round_between in E as (-> & He' & Hb); [|assumption].
    cbn [units cond_Zopp].
    assert (0 < Zpos p * 2 ^ (e - emin)) by (apply Z.mul_pos_pos; lia).
    assert (0 < Zpos m' * 2 ^ (e' - emin)) by (apply Z.mul_pos_pos; [lia|apply pow2_pos; lia]).
    replace (Zneg p * 2 ^ (e - emin)) with (- (Zpos p * 2 ^ (e - emin)))
      by (rewrite <- Z.mul_opp_l; reflexivity).
    destruct (Z_lt_le_dec 0 B) as [N|N]; [lia|].
    rewrite Z.abs_neq in HB by assumption. specialize (Hb _ HB). lia.
Qed.

Lemma cond_Zopp_mul : forall s a b, cond_Zopp s a * b = cond_Zopp s (a * b).
Proof. intros [] a b; cbn [cond_Zopp]; ring. Qed.

Lemma SFadd_between : forall x y,
  valid_binary x = true -> valid_binary y = true ->
  finite x = true -> finite y = true -> finite (SFadd prec emax x y) = true ->
  forall B, on_grid (Z.abs B) ->
    (units x + units y <= B -> units (SFadd prec emax x y) <= B)
    /\ (B <= units x + units y -> B <= units (SFadd prec emax x y)).
Proof.
  intros [sx|sx| |sx mx ex] [sy|sy| |sy my ey] Vx Vy Fx Fy; try discriminate.
  - intros _ B _. destruct sx, sy; cbn [SFadd units]; lia.
  - intros _ B _. cbn [SFadd]. cbn [units]. lia.
  - intros _ B _. cbn [SFadd]. cbn [units]. lia.
  - cbn [SFadd]. cbn [valid_binary] in Vx, Vy.
    apply bounded_facts in Vx as (Lx & _). apply bounded_facts in Vy as (Ly & _).
    set (ez := Z.min ex ey).
    intros Hfin B HB.
    replace (units (S754_finite sx mx ex) + units (S754_finite sy my ey))
      with ((cond_Zopp sx (Zpos (fst (shl_align mx ex ez)))
             + cond_Zopp sy (Zpos (fst (shl_align my ey ez)))) * 2 ^ (ez - emin)).
    + apply normalize_between; [unfold ez; lia|assumption|assumption].
    + rewrite !shl_align_value by (unfold ez; lia). cbn [units].
      rewrite Z.mul_add_distr_r, !cond_Zopp_mul, <- !Z.mul_assoc, <- !pow2_split
        by (unfold ez; lia).
      do 4 f_equal; lia.
Qed.

Lemma mag_le : forall m1 e1 m2 e2,
  bounded prec emax m1 e1 = true -> bounded prec emax m2 e2 = true ->
  (e1 < e2 \/ (e1 = e2 /\ Zpos m1 <= Zpos m2))
  <-> Zpos m1 * 2 ^ (e1 - emin) <= Zpos m2 * 2 ^ (e2 - emin).
Proof.
  intros m1 e1 m2 e2 H1 H2.
  pose proof (bounded_facts _ _ H1) as (L1 & _). pose proof (bounded_facts _ _ H2) as (L2 & _).
  pose proof (pow2_pos (e1 - emin) ltac:(lia)) as P1.
  pose proof (pow2_pos (e2 - emin) ltac:(lia)) as P2.
  destruct (Z.lt_trichotomy e1 e2) as [H|[H|H]].
  - pose proof (mant_lt _ _ _ _ H1 H2 H) as M. split; [intros _|auto].
    replace (e2 - emin) with ((e2 - e1) + (e1 - emin)) by lia.
    rewrite pow2_split, Z.mul_assoc by lia.
    apply Z.mul_le_mono_nonneg_r; lia.
  - subst e2. split.
    + intros [?|[_ ?]]; [lia|]. apply Z.mul_le_mono_nonneg_r; lia.
    + intros M. right. split; [reflexivity|]. apply Z.mul_le_mono_pos_r in M; assumption.
  - pose proof (mant_lt _ _ _ _ H2 H1 H) as M. split; [intros [?|[? _]]; lia|].
    replace (e1 - emin) with ((e1 - e2) + (e2 - emin)) by lia.
    rewrite pow2_split, Z.mul_assoc by lia. intros C.
    apply Z.mul_le_mono_pos_r in C; [lia|assumption].
Qed.

Lemma SFleb_units : forall x y,
  valid_binary x = true -> valid_binary y = true -> finite x = true -> finite y = true ->
  (SFleb x y = true <-> units x <= units y).
Proof.
  intros x y Vx Vy Fx Fy. unfold SFleb.
  rewrite SFcompare_key by (intros ->; discriminate).
  assert (E : match lexc (key x) (key y) with Eq | Lt => true | Gt => false end = true
              <-> kle (key x) (key y)).
  { rewrite <- lexc_le. destruct (lexc _ _); split; congruence. }
  rewrite E. clear E.
  destruct x as [sx|sx| |sx mx ex], y as [sy|sy| |sy my ey]; try discriminate;
    cbn [valid_binary] in Vx, Vy; cbn [key units cond_Zopp kle].
  - lia.
  - pose proof (bounded_facts _ _ Vy) as (Ly & _).
    assert (0 < Zpos my * 2 ^ (ey - emin)) by (apply Z.mul_pos_pos; [lia|apply pow2_pos; lia]).
    destruct sy; cbn [key cond_Zopp kle]; lia.
  - pose proof (bounded_facts _ _ Vx) as (Lx & _).
    assert (0 < Zpos mx * 2 ^ (ex - emin)) by (apply Z.mul_pos_pos; [lia|apply pow2_pos; lia]).
    destruct sx; cbn [key cond_Zopp kle]; lia.
  - pose proof (bounded_facts _ _ Vx) as (Lx & _). pose proof (bounded_facts _ _ Vy) as (Ly & _).
    assert (0 < Zpos mx * 2 ^ (ex - emin)) by (apply Z.mul_pos_pos; [lia|apply pow2_pos; lia]).
    assert (0 < Zpos my * 2 ^ (ey - emin)) by (apply Z.mul_pos_pos; [lia|apply pow2_pos; lia]).
    pose proof (mag_le _ _ _ _ Vx Vy) as Mxy. pose proof (mag_le _ _ _ _ Vy Vx) as Myx.
    destruct sx, sy; cbn [key cond_Zopp kle]; lia.
Qed.

Lemma fexp_low : forall m, 0 <= m < 2 ^ prec -> fexp prec emax (Zdigits2 m + emin) - emin = 0.
Proof.
  intros [|q|q] H; try lia; cbn [Zdigits2]; [reflexivity|].
  destruct (digits_range q 0 prec) as [D1 D2]; try lia.
  unfold fexp, SpecFloat.emin, prec, emax in *. lia.
Qed.

Lemma div_eucl_eq : forall a b q r, Z.div_eucl a b = (q, r) -> q = a / b /\ r = a mod b.
Proof. intros a b q r E. unfold Z.div, Z.modulo. rewrite E. split; reflexivity. Qed.

(** In the subnormal range the last place is one unit, and rounding is
    rounding to an integer. *)
Lemma round_aux_low : forall s q l,
  0 <= q < 2 ^ (prec - 1) -> l = loc_Exact \/ l = loc_Inexact Eq ->
  units (binary_round_aux prec emax s q emin l) = cond_Zopp s (round_nearest_even q l).
Proof.
  intros s q l Hq Hl. unfold binary_round_aux, shr_fexp.
  change (2 ^ (prec - 1)) with 4503599627370496 in Hq.
  rewrite fexp_low by (change (2 ^ prec) with 9007199254740992; lia). cbn [shr].
  assert (E : loc_of_shr_record (shr_record_of_loc q l) = l) by (destruct Hl; subst; reflexivity).
  rewrite E, shr_record_of_loc_m.
  pose proof (round_nearest_even_bounds q l) as Hr.
  set (m2 := round_nearest_even q l) in *.
  rewrite fexp_low by (change (2 ^ prec) with 9007199254740992; lia).
  cbn [shr shr_record_of_loc shr_m].
  destruct m2 as [|m|m]; try lia.
  - destruct s; reflexivity.
  - change (emin <=? emax - prec) with true. cbn [units].
    rewrite Z.sub_diag. simpl (2 ^ 0). rewrite Z.mul_1_r. reflexivity.
Qed.

(** Halving is exact above the subnormal range, and rounds to an integer
    number of units in it. *)
Lemma SFdiv_two : forall x,
  valid_binary x = true -> finite x = true -> finite (SFdiv prec emax x two) = true ->
  -1 <= 2 * units (SFdiv prec emax x two) - units x <= 1.
Proof.
  intros [sx|sx| |s m1 e1] V F; try discriminate.
  - intros _. cbn [SFdiv two units]. lia.
  - cbn [valid_binary] in V. pose proof (bounded_facts _ _ V) as (L & U & N).
    assert (C : fexp prec emax (Zpos (digits2_pos m1) + e1) = e1).
    { unfold bounded, canonical_mantissa in V. apply andb_prop in V as [V _].
      apply Z.eqb_eq in V. exact V. }
    pose proof (digits2_bounds m1) as Hd.
    unfold SFdiv, two, SFdiv_core_binary. cbn [Zdigits2].
    change (Zpos (digits2_pos 4503599627370496)) with 53.
    rewrite xorb_false_r.
    set (d1 := Zpos (digits2_pos m1)) in *.
    set (e' := Z.min (fexp prec emax (d1 + e1 - (53 + -51))) (e1 - -51)).
    destruct (Z.eq_dec e1 emin) as [E|E].
    + assert (He' : e' = emin).
      { unfold e', fexp, SpecFloat.emin, prec, emax in *. lia. }
      rewrite He'. subst e1.
      replace (emin - -51 - emin) with 51 by lia.
      rewrite Z.shiftl_mul_pow2 by lia.
      destruct (Z.div_eucl (Zpos m1 * 2 ^ 51) 4503599627370496) as [q r] eqn:Ed.
      apply div_eucl_eq in Ed as [Hq Hr].
      change 4503599627370496 with (2 * 2 ^ 51) in Hq, Hr.
      rewrite Z.div_mul_cancel_r in Hq by lia.
      rewrite Z.mul_mod_distr_r in Hr by lia.
      pose proof (Z.div_mod (Zpos m1) 2 ltac:(lia)) as Hdm.
      pose proof (Z.mod_pos_bound (Zpos m1) 2 ltac:(lia)) as Hrho.
      rewrite <- Hq in Hdm. set (rho := Zpos m1 mod 2) in *.
      change (2 ^ prec) with 9007199254740992 in U.
      intros _. cbn [units cond_Zopp]. rewrite Z.sub_diag. simpl (2 ^ 0). rewrite Z.mul_1_r.
      assert (Hl : (rho = 0 /\ new_location 4503599627370496 r = loc_Exact)
                   \/ (rho = 1 /\ new_location 4503599627370496 r = loc_Inexact Eq)).
      { assert (R : rho = 0 \/ rho = 1) by lia.
        destruct R as [R|R]; rewrite R in Hr; subst r; [left|right]; split; auto. }
      rewrite round_aux_low.
      * destruct Hl as [[R ->]|[R ->]]; cbn [round_nearest_even];
          [|destruct (Z.even q)]; destruct s; cbn [cond_Zopp]; lia.
      * change (2 ^ (prec - 1)) with 4503599627370496. lia.
      * destruct Hl as [[_ ->]|[_ ->]]; auto.
    + specialize (N ltac:(lia)).
      assert (D : d1 = prec) by (unfold fexp, SpecFloat.emin, prec, emax in *; lia).
      assert (He' : emin <= e' <= e1 - 1 /\ e1 - 2 <= e').
      { unfold e', fexp, SpecFloat.emin, prec, emax in *. lia. }
      destruct (e1 - -51 - e') as [|sp|sp] eqn:Es; try lia.
      rewrite Z.shiftl_mul_pow2 by lia.
      destruct (Z.div_eucl (Zpos m1 * 2 ^ Zpos sp) 4503599627370496) as [q r] eqn:Ed.
      apply div_eucl_eq in Ed as [Hq Hr].
      replace (Zpos sp) with ((Zpos sp - 52) + 52) in Hq, Hr by lia.
      rewrite pow2_split, Z.mul_assoc in Hq, Hr by lia.
      change (2 ^ 52) with 4503599627370496 in Hq, Hr.
      rewrite Z.div_mul in Hq by lia. rewrite Z.mod_mul in Hr by lia.
      subst r. change (new_location 4503599627370496 0) with loc_Exact.
      pose proof (pow2_pos (Zpos sp - 52) ltac:(lia)) as Ps.
      assert (Pq : 0 < q) by (subst q; apply Z.mul_pos_pos; lia).
      destruct q as [|qq|qq]; try lia.
      pose proof (binary_round_aux_nonzero s qq e' loc_Exact ltac:(lia)) as Hnz.
      destruct (binary_round_aux prec emax s (Zpos qq) e' loc_Exact) as [?|?| |s' m' ee] eqn:R;
        try discriminate; try contradiction.
      intros _. apply round_aux_between in R as (-> & Hee & Hb); [|lia].
      assert (HN : Zpos qq * 2 ^ (e' - emin) = Zpos m1 * 2 ^ (e1 - 1 - emin)).
      { rewrite Hq, <- Z.mul_assoc, <- pow2_split by lia. do 2 f_equal. lia. }
      rewrite HN in Hb.
      destruct (Hb (Zpos m1 * 2 ^ (e1 - 1 - emin))) as [Hb1 Hb2].
      { exists (Zpos m1), (e1 - 1 - emin). split; [reflexivity|]. split; lia. }
      specialize (Hb1 ltac:(lia)). specialize (Hb2 ltac:(lia)).
      cbn [units].
      replace (e1 - emin) with (1 + (e1 - 1 - emin)) by lia.
      rewrite pow2_split by lia. change (2 ^ 1) with 2.
      destruct s; cbn [cond_Zopp]; lia.
Qed.

Lemma on_grid_double : forall x, valid_binary x = true -> on_grid (Z.abs (2 * units x)).
Proof.
  intros [s|s| |s m e] V; cbn [units]; try (exists 0, 0; cbn; lia).
  cbn [valid_binary] in V. apply bounded_facts in V as (L & U & _).
  exists (Zpos m), (1 + (e - emin)). split; [|lia].
  pose proof (pow2_pos (e - emin) ltac:(lia)) as P.
  rewrite pow2_split by lia. change (2 ^ 1) with 2.
  destruct s; cbn [cond_Zopp]; lia.
Qed.

Lemma is_finite_finite : forall x, is_finite x = finite (Prim2SF x).
Proof. intros x. unfold is_finite. destruct (Prim2SF x); reflexivity. Qed.

(** The halved sum of two numbers in order lies between them, whenever it
    is a finite number. *)
Lemma midpoint_between : forall lo hi : float,
  PrimFloat.leb lo hi = true -> is_finite ((lo + hi) / 2) = true ->
  PrimFloat.leb lo ((lo + hi) / 2) = true /\ PrimFloat.leb ((lo + hi) / 2) hi = true.
Proof.
  intros lo hi Hle Hfin.
  pose proof (Prim2SF_valid lo) as Vl. pose proof (Prim2SF_valid hi) as Vh.
  pose proof (Prim2SF_valid (lo + hi)) as Vs. pose proof (Prim2SF_valid ((lo + hi) / 2)) as Vm.
  rewrite is_finite_finite in Hfin. rewrite !leb_spec. rewrite leb_spec in Hle.
  assert (Em : Prim2SF ((lo + hi) / 2) = SFdiv prec emax (Prim2SF (lo + hi)) two).
  { rewrite div_spec. reflexivity. }
  pose proof (add_spec lo hi) as Es. unfold SF64add in Es.
  assert (Fs : finite (Prim2SF (lo + hi)) = true).
  { rewrite Em in Hfin. destruct (Prim2SF (lo + hi)); try reflexivity; discriminate Hfin. }
  assert (Fl : finite (Prim2SF lo) = true /\ finite (Prim2SF hi) = true).
  { rewrite Es in Fs. clear - Fs Hle.
    destruct (Prim2SF lo) as [?|[]| |? ? ?], (Prim2SF hi) as [?|[]| |? ? ?];
      try discriminate Hle; try discriminate Fs; split; reflexivity. }
  destruct Fl as [Fl Fh].
  pose proof (proj1 (SFleb_units _ _ Vl Vh Fl Fh) Hle) as Hu.
  pose proof (SFadd_between _ _ Vl Vh Fl Fh) as Hb. rewrite <- Es in Hb.
  specialize (Hb Fs).
  destruct (Hb _ (on_grid_double _ Vl)) as [_ B1].
  destruct (Hb _ (on_grid_double _ Vh)) as [B2 _].
  specialize (B1 ltac:(lia)). specialize (B2 ltac:(lia)).
  pose proof (SFdiv_two _ Vs Fs) as Hd. rewrite <- Em in Hd. specialize (Hd Hfin).
  split; apply SFleb_units; auto; lia.
Qed.

Lemma SFadd_not_NaN : forall a b,
  valid_binary a = true -> valid_binary b = true -> a <> S754_nan ->
  match b with S754_nan | S754_infinity _ => False | _ => True end ->
  SFadd prec emax a b <> S754_nan.
Proof.
  intros [[]|[]| |sa ma ea] [[]|[]| |sb mb eb] Va Vb Na Fb; cbn [SFadd];
    try contradiction; try congruence; try discriminate.
  cbn [valid_binary] in Va, Vb.
  pose proof (bounded_facts _ _ Va) as (La & _).
  pose proof (bounded_facts _ _ Vb) as (Lb & _).
  match goal with
  | |- binary_normalize _ _ ?z ?e _ <> _ =>
      pose proof (binary_normalize_sign z e ltac:(lia)) as Hs; destruct z
  end.
  - rewrite Hs. discriminate.
  - intros E. rewrite E in Hs. exact Hs.
  - intros E. rewrite E in Hs. exact Hs.
Qed.

Lemma add_not_NaN : forall a b,
  isNaN a = false -> is_finite b = true -> isNaN (a + b)%float = false.
Proof.
  intros a b Ha Hb. destruct (isNaN (a + b)) eqn:E; [|reflexivity].
  apply isNaN_iff in E. rewrite add_spec in E. exfalso.
  revert E. apply SFadd_not_NaN; try apply Prim2SF_valid.
  - intros E. apply isNaN_iff in E. congruence.
  - unfold is_finite in Hb. destruct (Prim2SF b); try discriminate Hb; exact I.
Qed.

Lemma digits2_iter_xO : forall k m,
  Zpos (digits2_pos (Pos.iter xO m k)) = Zpos (digits2_pos m) + Zpos k.
Proof.
  induction k as [|k IH] using Pos.peano_ind; intros m.
  - cbn. lia.
  - rewrite Pos.iter_succ. cbn [digits2_pos]. rewrite Pos2Z.inj_succ, IH. lia.
Qed.

(** A mantissa that needs no right shift is not rounded. *)
Lemma binary_round_exact : forall s p e,
  emin <= e ->
  fexp prec emax (Zpos (digits2_pos p) + e) <= e ->
  fexp prec emax (Zpos (digits2_pos p) + e) <= emax - prec ->
  exists m f,
    binary_round prec emax s p e = S754_finite s m f
    /\ bounded prec emax m f = true.
Proof.
  intros s p e He Hf Ho. unfold binary_round.
  set (f := fexp prec emax (Zpos (digits2_pos p) + e)) in *.
  pose proof (shl_align_snd p e f Hf) as Hs.
  assert (Hd : Zpos (digits2_pos (fst (shl_align p e f))) + f = Zpos (digits2_pos p) + e).
  { unfold shl_align. destruct (f - e) as [|k|k] eqn:E; cbn [fst]; try lia.
    rewrite digits2_iter_xO. lia. }
  destruct (shl_align p e f) as [mz ez]. cbn [fst snd] in Hs, Hd. subst ez.
  assert (En : fexp prec emax (Zpos (digits2_pos mz) + f) - f = 0) by (rewrite Hd; fold f; lia).
  exists mz, f. unfold binary_round_aux, shr_fexp. cbn [Zdigits2]. rewrite En.
  cbn [shr shr_record_of_loc loc_of_shr_record shr_m round_nearest_even Zdigits2].
  rewrite En. cbn [shr shr_record_of_loc shr_m].
  apply Z.leb_le in Ho. rewrite Ho. split; [reflexivity|].
  unfold bounded, canonical_mantissa. rewrite Ho, andb_true_r. apply Z.eqb_eq. lia.
Qed.

Lemma of_nat_positive : forall n,
  (0 < n)%nat -> Z.of_nat n <= max_array_length ->
  exists m e, Prim2SF (of_nat n) = S754_finite false m e.
Proof.
  intros n Hn Hmax. unfold of_nat, max_array_length in *.
  change (2 ^ 32 - 1) with 4294967295 in Hmax.
  destruct (Z.of_nat n) as [|p|p] eqn:E; try lia. cbn [binary_normalize].
  destruct (digits_range p 0 32) as [D1 D2]; [lia|lia|change (2 ^ 32) with 4294967296; lia|].
  destruct (binary_round_exact false p 0) as (m & f & Hr & Hb);
    try (unfold fexp, SpecFloat.emin, prec, emax; lia).
  rewrite Hr. exists m, f. apply Prim2SF_SF2Prim. exact Hb.
Qed.

Lemma nonneg_leb : forall x, nonneg x -> SFleb (S754_zero false) x = true.
Proof. intros [?|[]| |[] ? ?] H; try contradiction; reflexivity. Qed.

Lemma signed_nonneg : forall x, signed false x -> nonneg x.
Proof. intros [?|?| |? ? ?] H; cbn in *; subst; auto. Qed.

Lemma SFmul_self_nonneg : forall x, x <> S754_nan -> nonneg (SFmul prec emax x x).
Proof.
  intros [s|s| |s m e] H; try congruence; cbn [SFmul]; rewrite xorb_nilpotent; try exact I.
  apply signed_nonneg, binary_round_aux_signed. lia.
Qed.

Lemma SFadd_nonneg : forall a b,
  valid_binary a = true -> valid_binary b = true ->
  nonneg a -> nonneg b -> nonneg (SFadd prec emax a b).
Proof.
  intros [[]|[]| |[] ma ea] [[]|[]| |[] mb eb] Va Vb Ha Hb; cbn [SFadd];
    try contradiction; try exact I.
  cbn [valid_binary] in Va, Vb.
  pose proof (bounded_facts _ _ Va) as (La & _).
  pose proof (bounded_facts _ _ Vb) as (Lb & _).
  cbn [cond_Zopp].
  match goal with
  | |- nonneg (binary_normalize _ _ ?z ?e _) =>
      pose proof (binary_normalize_sign z e ltac:(lia)) as Hs;
      assert (Hz : 0 < z) by lia; destruct z; try lia
  end.
  destruct (binary_normalize _ _ _ _ _) as [?|?| |? ? ?]; cbn in Hs; try contradiction;
    subst; exact I.
Qed.

Lemma SFdiv_signed : forall a s m e,
  a <> S754_nan ->
  match SFdiv prec emax a (S754_finite s m e) with S754_nan => False | _ => True end.
Proof.
  intros [sa|sa| |sa ma ea] s m e H; try congruence; cbn [SFdiv]; try exact I.
  unfold SFdiv_core_binary.
  set (m' := match (ea - e - _) with Z0 => _ | Zpos _ => _ | Zneg _ => _ end).
  assert (Hm : 0 <= m').
  { unfold m'. destruct (ea - e - _); try lia. apply Z.shiftl_nonneg. lia. }
  pose proof (Z_div_mod m' (Zpos m) ltac:(lia)) as Hq.
  destruct (Z.div_eucl m' (Zpos m)) as [q r].
  assert (0 <= q) by nia.
  pose proof (binary_round_aux_signed (xorb sa s) q (Z.min (fexp prec emax (Zdigits2 (Zpos ma) + ea - (Zdigits2 (Zpos m) + e))) (ea - e)) (new_location (Zpos m) r) ltac:(lia)) as Hr.
  destruct (binary_round_aux _ _ _ _ _ _); cbn in Hr; auto.
Qed.

Lemma SFdiv_nonneg : forall a m e,
  nonneg a -> nonneg (SFdiv prec emax a (S754_finite false m e)).
Proof.
  intros [[]|[]| |[] ma ea] m e H; try contradiction; cbn [SFdiv xorb]; try exact I.
  unfold SFdiv_core_binary.
  set (m' := match (ea - e - _) with Z0 => _ | Zpos _ => _ | Zneg _ => _ end).
  assert (Hm : 0 <= m').
  { unfold m'. destruct (ea - e - _); try lia. apply Z.shiftl_nonneg. lia. }
  pose proof (Z_div_mod m' (Zpos m) ltac:(lia)) as Hq.
  destruct (Z.div_eucl m' (Zpos m)) as [q r].
  assert (0 <= q) by nia.
  apply signed_nonneg, binary_round_aux_signed. lia.
Qed.

Lemma SFsqrt_keeps_nonneg : forall x, nonneg x -> nonneg (SFsqrt prec emax x).
Proof.
  intros [[]|[]| |[] m e] H; try contradiction; cbn [SFsqrt]; try exact I.
  unfold SFsqrt_core_binary.
  set (m' := match (e - 2 * _)%Z with Z0 => _ | Zpos _ => _ | Zneg _ => _ end).
  assert (Hm : (0 <= m')%Z).
  { unfold m'. destruct (e - 2 * _)%Z; try lia. apply Z.shiftl_nonneg. lia. }
  pose proof (Z.sqrtrem_spec m' Hm) as Hs.
  destruct (Z.sqrtrem m') as [q r].
  apply signed_nonneg, binary_round_aux_signed. lia.
Qed.

Lemma SFsub_not_NaN : forall b a,
  valid_binary a = true -> valid_binary b = true ->
  finite b = true -> a <> S754_nan -> SFsub prec emax b a <> S754_nan.
Proof.
  intros [[]|[]| |sb mb eb] [[]|[]| |sa ma ea] Va Vb Fb Na; cbn [SFsub];
    try discriminate Fb; try congruence; try discriminate.
  cbn [valid_binary] in Va, Vb.
  pose proof (bounded_facts _ _ Va) as (La & _).
  pose proof (bounded_facts _ _ Vb) as (Lb & _).
  match goal with
  | |- binary_normalize _ _ ?z ?e _ <> _ =>
      pose proof (binary_normalize_sign z e ltac:(lia)) as Hs; destruct z
  end.
  - rewrite Hs. discriminate.
  - intros E. rewrite E in Hs. exact Hs.
  - intros E. rewrite E in Hs. exact Hs.
Qed.

Lemma sum_not_NaN : forall l acc,
  isNaN acc = false -> all_finite l -> isNaN (fold_left add l acc) = false.
Proof.
  induction l as [|b l IH]; intros acc Ha Hl; cbn [fold_left]; [assumption|].
  inversion Hl as [|? ? Hb Hl']; subst. apply IH; [|assumption].
  unfold add. apply add_not_NaN; assumption.
Qed.

Lemma not_NaN_iff : forall x, isNaN x = false <-> Prim2SF x <> S754_nan.
Proof.
  intros x. rewrite <- isNaN_iff. destruct (isNaN x); split; congruence.
Qed.

Lemma squares_nonneg : forall nums avg acc,
  isNaN avg = false -> all_finite nums -> nonneg (Prim2SF acc) ->
  nonneg (Prim2SF (fold_left (fun a b => a + Math_pow2 (b - avg)) nums acc)%float).
Proof.
  induction nums as [|b l IH]; intros avg acc Ha Hl Hacc; cbn [fold_left]; [assumption|].
  inversion Hl as [|? ? Hb Hl']; subst. apply IH; try assumption.
  rewrite add_spec. apply SFadd_nonneg; try apply Prim2SF_valid; [assumption|].
  unfold Math_pow2. rewrite mul_spec. apply SFmul_self_nonneg.
  rewrite sub_spec. apply SFsub_not_NaN; try apply Prim2SF_valid.
  - rewrite <- is_finite_finite. assumption.
  - apply not_NaN_iff. assumption.
Qed.

(** The deviation of finite values is no [NaN]. *)
Lemma stdDev_nonneg : forall nums,
  (0 < List.length nums)%nat -> Z.of_nat (List.length nums) <= max_array_length ->
  all_finite nums -> le 0 (stdDev (stats_of nums)) = true.
Proof.
  intros nums Hn Hmax Hfin. unfold stats_of. cbn [stdDev].
  destruct (of_nat_positive _ Hn Hmax) as (m & e & Hc).
  set (avg := (fold_left add nums 0 / of_nat (List.length nums))%float).
  assert (Havg : isNaN avg = false).
  { apply not_NaN_iff. unfold avg. rewrite div_spec, Hc.
    pose proof (SFdiv_signed (Prim2SF (fold_left add nums 0%float)) false m e) as H.
    intros E. unfold SF64div in E. rewrite E in H. apply H.
    apply not_NaN_iff. apply sum_not_NaN; [reflexivity|assumption]. }
  unfold le, Math_sqrt. rewrite leb_spec, sqrt_spec, div_spec, Hc.
  change (Prim2SF 0) with (S754_zero false).
  apply nonneg_leb, SFsqrt_keeps_nonneg, SFdiv_nonneg, squares_nonneg; try assumption.
  exact I.
Qed.

Close Scope Z_scope.

Lemma sort_insert_perm : forall A (cmp : A -> A -> float) x l,
  Permutation (x :: l) (sort_insert cmp x l).
Proof.
  induction l as [|y r IH]; cbn [sort_insert]; [reflexivity|].
  destruct (gt (cmp x y) 0); [|reflexivity].
  rewrite perm_swap. constructor. exact IH.
Qed.

Lemma sort_perm : forall A (cmp : A -> A -> float) l, Permutation l (sort cmp l).
Proof.
  induction l as [|x l IH]; cbn; [constructor|].
  etransitivity; [|apply sort_insert_perm]. constructor. exact IH.
Qed.

Lemma sort_length : forall A (cmp : A -> A -> float) l, List.length (sort cmp l) = List.length l.
Proof. intros. symmetry. apply Permutation_length, sort_perm. Qed.

(** Sorting with a comparator that decides a transitive relation. *)
Section Sorting.
Variable A : Type.
Variable cmp : A -> A -> float.
Variable R : A -> A -> Prop.
Variable P : A -> Prop.
Hypothesis cmp_gt : forall x y, P x -> P y -> gt (cmp x y) 0 = true -> R y x.
Hypothesis cmp_le : forall x y, P x -> P y -> gt (cmp x y) 0 = false -> R x y.
Hypothesis R_trans : forall x y z, R x y -> R y z -> R x z.

Lemma sort_insert_ordered : forall x l,
  P x -> Forall P l -> StronglySorted R l -> StronglySorted R (sort_insert cmp x l).
Proof.
  intros x l Hx Hl Hs. induction Hs as [|y r Hs IH Hy]; cbn [sort_insert].
  - repeat constructor.
  - inversion Hl as [|? ? Hpy Hpr]; subst.
    destruct (gt (cmp x y) 0) eqn:G.
    + constructor; [apply IH; assumption|].
      apply (Permutation_Forall (sort_insert_perm _ cmp x r)).
      constructor; [|exact Hy]. apply cmp_gt; assumption.
    + constructor; [constructor; assumption|].
      assert (Rxy : R x y) by (apply cmp_le; assumption).
      constructor; [exact Rxy|].
      eapply Forall_impl; [|exact Hy]. intros z Hz. eapply R_trans; eassumption.
Qed.

Lemma sort_ordered : forall l, Forall P l -> StronglySorted R (sort cmp l).
Proof.
  induction l as [|x l IH]; intros H; cbn; [constructor|].
  inversion H; subst. apply sort_insert_ordered; auto.
  apply (Permutation_Forall (sort_perm _ cmp l)). assumption.
Qed.

(** Stability: elements of a class [p] that the comparator never orders
    keep their relative order. *)
Variable p : A -> bool.
Hypothesis class_unordered : forall x y, gt (cmp x y) 0 = true -> p x = true -> p y = false.


End Sorting.

Lemma sort_sorted : forall l, no_NaN l -> StronglySorted asc (sort ascending l).
Proof.
  apply sort_ordered.
  - intros x y Hx Hy G. unfold ascending in G. rewrite sub_gt_zero in G by assumption.
    unfold asc. rewrite leb_spec. rewrite ltb_spec in G. unfold SFleb, SFltb in *.
    destruct (SFcompare (Prim2SF y) (Prim2SF x)) as [[]|]; congruence.
  - intros x y Hx Hy G. unfold ascending in G. rewrite sub_gt_zero in G by assumption.
    rewrite ltb_negb_leb in G by assumption. apply negb_false_iff in G. exact G.
  - intros x y z Hxy Hyz. unfold asc in *. eapply leb_trans; eassumption.
Qed.

(** ** The working row set *)

(** C10: with a mode other than ['single'], ['union'] and ['compare'],
    [prepareMasterData] leaves the working row set as it was when the
    collection has a dataset, and empties it when the collection has
    none; so the row set changes only when the collection is empty. *)
Theorem prepareMasterData_other_mode :
  forall (st : DataEngine.state) (mode : string),
    known_mode mode = false ->
    (keys (DataEngine.datasetCollection st) <> [] ->
     DataEngine.prepareMasterData mode st = st)
    /\ (keys (DataEngine.datasetCollection st) = [] ->
        DataEngine.prepareMasterData mode st
        = {| DataEngine.datasetCollection := DataEngine.datasetCollection st;
             DataEngine.masterData := [] |})
    /\ (DataEngine.masterData (DataEngine.prepareMasterData mode st)
        <> DataEngine.masterData st ->
        keys (DataEngine.datasetCollection st) = []).
Proof.
  intros st mode Hm.
  unfold known_mode in Hm.
  apply orb_false_elim in Hm as [Hm Hc].
  apply orb_false_elim in Hm as [Hs Hu].
  unfold DataEngine.prepareMasterData.
  rewrite Hs, Hu, Hc.
  destruct (keys (DataEngine.datasetCollection st)) as [|k ks] eqn:Hk; simpl.
  - repeat split; try reflexivity. intros H; now elim H.
  - repeat split; try discriminate. intros H; now elim H.
Qed.

Lemma prepareMasterData_other_mode_witness :
  known_mode "overlay" = false
  /\ keys (DataEngine.datasetCollection sample_state) <> []
  /\ DataEngine.prepareMasterData "overlay" sample_state = sample_state.
Proof.
  split; [reflexivity|].
  split; [discriminate|].
  apply (prepareMasterData_other_mode sample_state "overlay"); [reflexivity|discriminate].
Defined.

(** ** Report export *)




(** ** Interpretation, impact matrix and advisory *)

Lemma decides_if :
  forall (b : bool) (yes no : string),
    yes <> no -> decides b (if b then yes else no) yes no.
Proof.
  intros b yes no Hd. unfold decides. destruct b; repeat split; intros; try reflexivity;
    try discriminate; congruence.
Qed.

(** C3, as the specification words it, fails on the code, which divides
    [stdDev] by [mean || 1], not by [mean]: on the column [-1, 1] the
    mean is [0] and the deviation [1], [stdDev / mean] is [+Infinity],
    above [1.2], but the code compares [1 / 1] and issues no REDUCE. *)
Lemma advisory_reduce_guard :
  exists st,
    computeFullStats (cells ["-1"; "1"]) "v" = Some st
    /\ map action (advisory (biAnalystBrain st no_shift 0 "X" "Y" "N/A")) = ["DIVERSIFY"]
    /\ Spec.advisory_actions st no_shift = ["DIVERSIFY"; "REDUCE"].
Proof.
  eexists. split; [vm_compute; reflexivity|].
  split; vm_compute; reflexivity.
Qed.

(** C3, amended: the advisory list is built by three independent rules, in
    this order: concentration above 40 appends DIVERSIFY, [|volShift|]
    above 15 appends MONITOR, [stdDev / (mean || 1)] above 1.2 (the mean
    replaced by 1 when it is zero or [NaN]) appends REDUCE; when none
    fired the list is the single action MAINTAIN.  So the list is never
    empty and MAINTAIN only appears alone. *)
Theorem advisory_rules :
  forall (st : stats) (sh : shifts) (correlation : float) (xl yl dom : string),
    let acts := map action (advisory (biAnalystBrain st sh correlation xl yl dom)) in
    acts = advisory_actions st sh
    /\ advisory (biAnalystBrain st sh correlation xl yl dom) <> []
    /\ (In "MAINTAIN" acts -> acts = ["MAINTAIN"])
    /\ (acts = ["MAINTAIN"] <->
        gt (concentration_of st) 40 = false
        /\ gt (Math_abs (volShift sh)) 15 = false
        /\ gt (stdDev st / num_or (mean st) 1) 1.2 = false).
Proof.
  intros st sh correlation xl yl dom. cbv zeta.
  unfold biAnalystBrain, advisory_actions. cbn [advisory].
  destruct (gt (concentration_of st) 40);
    destruct (gt (Math_abs (volShift sh)) 15);
    destruct (gt (stdDev st / num_or (mean st) 1) 1.2);
    cbn; (split; [reflexivity|]); (split; [discriminate|]);
    (split; [intros H; repeat (destruct H as [H|H]; try discriminate H); try reflexivity;
             try contradiction|]);
    split; intros H; try discriminate H; try reflexivity; auto;
    destruct H as (H1 & H2 & H3); discriminate.
Qed.



(** C9, as the specification words it, fails on the code, which divides
    [stdDev] by [mean || 1]: on the column [-0.5, 0.5] the mean is [0]
    and the deviation [0.5], [|stdDev / mean|] is [+Infinity], above
    [0.8], but the code compares [0.5 / 1] and reports Stable. *)
Lemma stability_severity_guard :
  exists st,
    computeFullStats (cells ["-0.5"; "0.5"]) "v" = Some st
    /\ map category (impactMatrix (biAnalystBrain st no_shift 0 "X" "Y" "N/A"))
       = ["High Impact"; "Stable"; "Weak Correlation"]
    /\ Spec.severities st 0 = ["High Impact"; "Critical Risk"; "Weak Correlation"].
Proof.
  eexists. split; [vm_compute; reflexivity|].
  split; vm_compute; reflexivity.
Qed.

(** C9, amended: the impact matrix has exactly three entries, in this
    order: the dominance entry, High iff [max > mean * 5], else Medium;
    the stability entry, Critical iff [|stdDev / (mean || 1)| > 0.8] (the
    mean replaced by 1 when it is zero or [NaN]), else Stable; the
    relational-lock entry, Critical iff [|correlation| > 0.7], else Weak.
    Each carries its detail string, with the live numbers printed by
    [toFixed], and its trigger description. *)
Theorem impact_matrix_entries :
  forall (st : stats) (sh : shifts) (correlation : float) (xl yl dom : string),
    exists e1 e2 e3,
      impactMatrix (biAnalystBrain st sh correlation xl yl dom) = [e1; e2; e3]
      /\ label e1 = "Alpha Node Leverage"
      /\ decides (gt (max st) (mean st * 5)) (category e1) "High Impact" "Medium Impact"
      /\ detail e1 = "Dominant contributor [" ++ dom ++ "] controls "
                     ++ toFixed 1 (concentration_of st) ++ "% of total volume."
      /\ threshold e1 = "Concentration > 40% triggers dependency risk."
      /\ label e2 = "Distribution Stability"
      /\ decides (gt (Math_abs (dispersion st)) 0.8) (category e2) "Critical Risk" "Stable"
      /\ detail e2 = "Variance measured at " ++ toFixed 1 (variance st)
                     ++ " with a StdDev of " ++ toFixed 1 (stdDev st) ++ "."
      /\ threshold e2 = "Variance within operational stability threshold."
      /\ label e3 = "Temporal/Relational Lock"
      /\ decides (gt (Math_abs correlation) 0.7) (category e3)
                 "Operationally Critical" "Weak Correlation"
      /\ detail e3 = yl ++ " shows a " ++ toFixed 2 (Math_abs correlation)
                     ++ " correlation strength with " ++ xl ++ "."
      /\ threshold e3 = "Correlation > 0.7 indicates direct operational dependency.".
Proof.
  intros st sh correlation xl yl dom.
  unfold biAnalystBrain, dispersion. cbn [impactMatrix].
  do 3 eexists. split; [reflexivity|]. cbn [label category detail threshold].
  repeat (split; [first [reflexivity | apply decides_if; discriminate]|]).
  reflexivity.
Qed.

(** ** Coercion and column statistics *)

Lemma chars_str : forall l, chars (str l) = l.
Proof. exact list_ascii_of_string_of_list_ascii. Qed.




Lemma parseVal_not_NaN : forall v, is_number v = false -> isNaN (parseVal v) = false.
Proof.
  intros v Hn.
  assert (Hp : exists p, parseVal v = num_or p 0).
  { destruct v; try discriminate Hn; eexists; reflexivity. }
  destruct Hp as [p ->]. unfold num_or, num_truthy.
  destruct (PrimFloat.eqb p 0) eqn:Ez; cbn [orb negb]; [reflexivity|].
  destruct (isNaN p) eqn:En; cbn [negb]; [reflexivity|exact En].
Qed.

Lemma parseVal_NaN : forall v, isNaN (parseVal v) = true <-> v = VNum nan.
Proof.
  intros v. split.
  - intros H. destruct (is_number v) eqn:Hn.
    + destruct v; try discriminate Hn. cbn in H. apply isNaN_nan in H. congruence.
    + rewrite parseVal_not_NaN in H by assumption. discriminate H.
  - intros ->. reflexivity.
Qed.





Lemma computeFullStats_stats_of : forall data field,
  computeFullStats data field
  = match column data field with
    | [] => None
    | _ :: _ => Some (stats_of (column data field))
    end.
Proof.
  intros data field. unfold computeFullStats.
  destruct (column data field) as [|n nums]; reflexivity.
Qed.


Lemma column_cons : forall d data field,
  column (d :: data) field
  = if isNaN (parseVal (cell d field)) then column data field
    else parseVal (cell d field) :: column data field.
Proof.
  intros. unfold column. cbn [map filter].
  destruct (isNaN (parseVal (cell d field))); reflexivity.
Qed.


Lemma column_all : forall data field,
  Forall (fun d => isNaN (parseVal (cell d field)) = false) data ->
  column data field = map (fun d => parseVal (cell d field)) data.
Proof.
  induction data as [|d data IH]; intros field H; [reflexivity|].
  inversion H as [|? ? Hd Hr]; subst. rewrite column_cons, Hd, IH by assumption. reflexivity.
Qed.



Lemma kle_refl : forall k, kle k k.
Proof. intros [[? ?] ?]. unfold kle. lia. Qed.

Lemma leb_refl : forall x, isNaN x = false -> PrimFloat.leb x x = true.
Proof. intros x H. apply leb_key; auto. apply kle_refl. Qed.

Lemma sorted_nth_le : forall l i j d,
  no_NaN l -> StronglySorted asc l -> (i <= j < List.length l)%nat ->
  asc (nth i l d) (nth j l d).
Proof.
  intros l i j d Hn Hs. revert i j. induction Hs as [|a r Hs IH Ha]; intros i j Hij.
  - cbn in Hij. lia.
  - inversion Hn as [|? ? Hna Hnr]; subst. destruct i as [|i], j as [|j]; cbn [nth].
    + apply leb_refl. assumption.
    + rewrite Forall_forall in Ha. apply Ha. apply nth_In. cbn in Hij. lia.
    + lia.
    + apply IH; [assumption|]. cbn in Hij. lia.
Qed.

Lemma column_no_NaN : forall data field, no_NaN (column data field).
Proof.
  intros. unfold no_NaN, column. apply Forall_forall. intros n H.
  apply filter_In in H as [_ H]. apply negb_true_iff. exact H.
Qed.

(** C8, as the specification words it, fails on the code: binary64
    arithmetic overflows.  Two cells of [9e307] have the median
    [(9e307 + 9e307) / 2 = Infinity], above the maximum; and a column
    with a cell too large for a number (read as [Infinity]) has the
    deviation [NaN], which is not [>= 0]. *)
Lemma stats_order_overflow :
  (exists st,
     computeFullStats (cells [nine_e307; nine_e307]) "v" = Some st
     /\ le (median st) (max st) = false)
  /\ (exists st,
        computeFullStats (cells [one_e309; "1"]) "v" = Some st
        /\ le 0 (stdDev st) = false).
Proof.
  split; eexists; (split; [vm_compute; reflexivity|]); vm_compute; reflexivity.
Qed.

(** C8, amended: a record that [computeFullStats] answers has
    [range = max - min]; [count] is the number of coerced values that are
    no [NaN], the number of rows when every cell coerces; [min] and [max]
    bound every coerced value, so [min <= max]; [stdDev] is [>= 0] unless
    it is [NaN], and it is [>= 0] whenever every counted value is finite;
    [min <= median <= max] with an odd count, and with any count whenever
    the median is a finite number; with an even count the median is the
    halved sum of the two middle values [lo <= hi], themselves between
    [min] and [max]. *)
Theorem computeFullStats_order :
  forall (data : list row) (field : string) (st : stats),
    computeFullStats data field = Some st ->
    range st = (max st - min st)%float
    /\ count st = List.length (column data field)
    /\ (Forall (fun d => isNaN (parseVal (cell d field)) = false) data ->
        count st = List.length data)
    /\ (forall v, In v (column data field) -> le (min st) v = true /\ le v (max st) = true)
    /\ le (min st) (max st) = true
    /\ (isNaN (stdDev st) = true \/ le 0 (stdDev st) = true)
    /\ ((Z.of_nat (count st) <= max_array_length)%Z -> all_finite (column data field) ->
        le 0 (stdDev st) = true)
    /\ (odd_count (count st) = true ->
        le (min st) (median st) = true /\ le (median st) (max st) = true)
    /\ (is_finite (median st) = true ->
        le (min st) (median st) = true /\ le (median st) (max st) = true)
    /\ (odd_count (count st) = false ->
        exists lo hi,
          median st = ((lo + hi) / 2)%float
          /\ le (min st) lo = true /\ le lo hi = true /\ le hi (max st) = true).
Proof.
  intros data field st H. rewrite computeFullStats_stats_of in H.
  pose proof (column_no_NaN data field) as Hn.
  set (nums := column data field) in *.
  assert (Hst : st = stats_of nums /\ (0 < List.length nums)%nat).
  { destruct nums; [discriminate H|]. injection H as <-. split; [reflexivity|cbn; lia]. }
  destruct Hst as [-> Hlen]. clear H.
  pose proof (sort_perm _ ascending nums) as Hp.
  assert (Hsn : no_NaN (sort ascending nums)) by (apply (Permutation_Forall Hp); exact Hn).
  pose proof (sort_sorted nums Hn) as Hs.
  pose proof (sort_length _ ascending nums) as Hl.
  assert (Hle : forall i j, (i <= j < List.length nums)%nat ->
                le (at_index (sort ascending nums) i) (at_index (sort ascending nums) j) = true).
  { intros i j Hij. apply sorted_nth_le; auto. lia. }
  unfold stats_of. cbn [range max min count stdDev median].
  split; [reflexivity|]. split; [reflexivity|]. split.
  { intros Hall. unfold nums. rewrite column_all by assumption. apply length_map. }
  split.
  { intros v Hv. apply (Permutation_in _ Hp) in Hv.
    apply (In_nth _ _ nan) in Hv as (i & Hi & <-). fold (at_index (sort ascending nums) i).
    split; apply Hle; lia. }
  split; [apply Hle; lia|].
  split; [apply sqrt_nonneg|].
  split; [intros Hmax Hfin; apply (stdDev_nonneg nums Hlen Hmax Hfin)|].
  assert (Hhalf : (List.length nums / 2 < List.length nums)%nat) by (apply Nat.div_lt; lia).
  split; [|split].
  - intros Ho. unfold odd_count in Ho. rewrite Ho. split; apply Hle; lia.
  - destruct (negb (List.length nums mod 2 =? 0)%nat) eqn:Ho.
    + intros _. split; apply Hle; lia.
    + apply negb_false_iff, Nat.eqb_eq in Ho.
      assert (Hd : List.length nums = (2 * (List.length nums / 2))%nat).
      { pose proof (Nat.div_mod (List.length nums) 2 ltac:(lia)). lia. }
      intros Hf. apply midpoint_between in Hf as [M1 M2]; [|apply Hle; lia].
      unfold le. split.
      * eapply leb_trans; [|exact M1]. apply Hle. lia.
      * eapply leb_trans; [exact M2|]. apply Hle. lia.
  - intros He. unfold odd_count in He. rewrite He.
    apply negb_false_iff, Nat.eqb_eq in He.
    assert (Hd : List.length nums = (2 * (List.length nums / 2))%nat).
    { pose proof (Nat.div_mod (List.length nums) 2 ltac:(lia)). lia. }
    do 2 eexists. split; [reflexivity|].
    repeat split; apply Hle; lia.
Qed.

Lemma computeFullStats_order_witness :
  exists st,
    computeFullStats (cells ["3"; "1"; "2"]) "v" = Some st
    /\ range st = (max st - min st)%float
    /\ count st = 3.
Proof.
  eexists. split; [vm_compute; reflexivity|].
  split.
  - apply (computeFullStats_order (cells ["3"; "1"; "2"]) "v"). vm_compute. reflexivity.
  - reflexivity.
Defined.

(** ** Correlation *)

(** C6: the guard of [computeCorrelation] is on the denominator as
    computed, and rounding leaves it non-zero, or the square root of a
    negative number, for some constant columns: the constant column
    [0.7, 0.7, 0.7] against [1, 2, 4] has a non-zero correlation, and
    the constant column [4.35, 4.35, 4.35] has the correlation [NaN]. *)
Lemma correlation_constant_column :
  coerced (two_columns ["0.7"; "0.7"; "0.7"] ["1"; "2"; "4"]) "a" = [0.7; 0.7; 0.7]%float
  /\ PrimFloat.eqb
       (computeCorrelation (two_columns ["0.7"; "0.7"; "0.7"] ["1"; "2"; "4"]) "a" "b") 0
     = false
  /\ coerced (two_columns ["4.35"; "4.35"; "4.35"] ["1"; "2"; "4"]) "a"
     = [4.35; 4.35; 4.35]%float
  /\ computeCorrelation (two_columns ["4.35"; "4.35"; "4.35"] ["1"; "2"; "4"]) "a" "b" = nan.
Proof. repeat split; vm_compute; reflexivity. Qed.

(** What [computeCorrelation] does answer: exactly [0] for fewer than two
    rows, and exactly [0] when the denominator it computes, the square
    root of the product of the two columns'
    [n * sum of squares - square of the sum], is zero; otherwise the
    quotient of the sum-of-products numerator by that denominator. *)
Theorem computeCorrelation_guarded :
  forall (data : list row) (x y : string),
    computeCorrelation data x y
    = (if Nat.ltb (List.length data) 2 then 0
       else if PrimFloat.eqb (pearson_denominator data x y) 0 then 0
            else pearson_numerator data x y / pearson_denominator data x y)%float
    /\ (List.length data < 2 -> computeCorrelation data x y = 0%float)
    /\ (PrimFloat.eqb (pearson_denominator data x y) 0 = true ->
        computeCorrelation data x y = 0%float).
Proof.
  intros data x y.
  assert (E : computeCorrelation data x y
              = (if Nat.ltb (List.length data) 2 then 0
                 else if PrimFloat.eqb (pearson_denominator data x y) 0 then 0
                      else pearson_numerator data x y / pearson_denominator data x y)%float).
  { unfold computeCorrelation, pearson_denominator, pearson_numerator, sum_prod, sum_sq,
      sum_of, coerced. rewrite !length_map. reflexivity. }
  split; [exact E|]. split.
  - intros H. rewrite E. apply Nat.ltb_lt in H. rewrite H. reflexivity.
  - intros H. rewrite E, H. destruct (Nat.ltb (List.length data) 2); reflexivity.
Qed.

(** ** Two audits of the same rows *)






(** ** Categorical aggregation *)

Lemma get_set : forall A (o : obj A) k v k',
  get (set o k v) k' = if String.eqb k k' then Some v else get o k'.
Proof.
  induction o as [|[k0 v0] o IH]; intros k v k'; cbn [set get].
  - reflexivity.
  - destruct (String.eqb_spec k0 k) as [->|Hn]; cbn [get].
    + destruct (String.eqb_spec k k'); reflexivity.
    + rewrite IH. destruct (String.eqb_spec k0 k') as [->|Hn'].
      * destruct (String.eqb_spec k k'); [congruence|reflexivity].
      * reflexivity.
Qed.

Lemma keys_set : forall A (o : obj A) k v,
  map fst (set o k v) = add_key (map fst o) k.
Proof.
  intros A o k v. unfold add_key, mem.
  induction o as [|[k0 v0] o IH]; cbn [set map fst existsb]; [reflexivity|].
  rewrite (String.eqb_sym k k0).
  destruct (String.eqb k0 k) eqn:E; cbn [orb map fst]; [reflexivity|].
  rewrite IH. destruct (existsb (String.eqb k) (map fst o)); reflexivity.
Qed.

Lemma mem_In : forall k l, mem k l = true <-> In k l.
Proof.
  intros k l. unfold mem. rewrite existsb_exists. split.
  - intros (k' & H & E). apply String.eqb_eq in E. subst. exact H.
  - intros H. exists k. split; [exact H|apply String.eqb_refl].
Qed.

Lemma add_key_NoDup : forall seen k, NoDup seen -> NoDup (add_key seen k).
Proof.
  intros seen k H. unfold add_key. destruct (mem k seen) eqn:E; [exact H|].
  apply NoDup_app; [exact H|repeat constructor; intros []|].
  intros a Ha [<-|[]]. apply mem_In in Ha. congruence.
Qed.

Lemma add_key_In : forall seen k a, In a (add_key seen k) <-> In a seen \/ a = k.
Proof.
  intros seen k a. unfold add_key. destruct (mem k seen) eqn:E.
  - apply mem_In in E. split; [auto|]. intros [H| ->]; assumption.
  - rewrite in_app_iff. cbn. intuition.
Qed.

Lemma fold_add_key_NoDup : forall l seen, NoDup seen -> NoDup (fold_left add_key l seen).
Proof.
  induction l as [|k l IH]; intros seen H; cbn; [exact H|]. apply IH, add_key_NoDup, H.
Qed.

Lemma fold_add_key_In : forall l seen a,
  In a (fold_left add_key l seen) <-> In a seen \/ In a l.
Proof.
  induction l as [|k l IH]; intros seen a; cbn; [intuition|].
  rewrite IH, add_key_In. intuition.
Qed.













Lemma insert_index_perm : forall A (e : string * A) l, Permutation (e :: l) (insert_index e l).
Proof.
  induction l as [|e' l IH]; cbn [insert_index]; [reflexivity|].
  destruct (index_of (fst e) <? index_of (fst e'))%Z; [reflexivity|].
  rewrite perm_swap. constructor. exact IH.
Qed.

Lemma index_sort_perm : forall A (l : list (string * A)),
  Permutation l (fold_right insert_index [] l).
Proof.
  induction l as [|e l IH]; cbn; [constructor|].
  etransitivity; [|apply insert_index_perm]. constructor. exact IH.
Qed.

Lemma filter_partition_perm : forall A (p : A -> bool) l,
  Permutation l (filter p l ++ filter (fun a => negb (p a)) l).
Proof.
  induction l as [|a l IH]; cbn; [constructor|].
  destruct (p a); cbn.
  - constructor. exact IH.
  - apply Permutation_cons_app. exact IH.
Qed.

Lemma entries_perm : forall A (o : obj A), Permutation o (entries o).
Proof.
  intros A o. unfold entries.
  etransitivity; [apply (filter_partition_perm _ (fun e => is_array_index (fst e)))|].
  apply Permutation_app; [apply index_sort_perm|reflexivity].
Qed.




























(** ** Coercion, correlation and the audit *)

Lemma chars_app : forall s t, chars (s ++ t) = (chars s ++ chars t)%list.
Proof.
  induction s as [|c s IH]; intros t; [reflexivity|].
  cbn. unfold chars in IH. rewrite IH. reflexivity.
Qed.

Lemma sfilter_app : forall f s t, sfilter f (s ++ t) = sfilter f s ++ sfilter f t.
Proof.
  intros f s t. unfold sfilter. rewrite chars_app, filter_app.
  generalize (filter f (chars s)) as l. induction l as [|c l IH]; [reflexivity|].
  cbn. unfold str in IH. rewrite IH. reflexivity.
Qed.

Lemma sfilter_none : forall f s, forallb (fun c => negb (f c)) (chars s) = true -> sfilter f s = "".
Proof.
  intros f s H. unfold sfilter.
  induction (chars s) as [|c l IH]; [reflexivity|].
  cbn in H. apply andb_prop in H as [H1 H2]. cbn [filter].
  apply negb_true_iff in H1. rewrite H1. auto.
Qed.

Lemma parseVal_filtered : forall s,
  parseVal (VStr s) = num_or (parseFloat (sfilter keep_numeric s)) 0.
Proof.
  intros s. unfold parseVal, or_else. cbn [truthy].
  destruct (String.eqb_spec s "") as [->|H]; reflexivity.
Qed.

(** X1: characters other than digits, the dot and the minus sign are ignored
    wherever they stand in a cell: "1e5" reads as 15. *)
Theorem parseVal_ignores : forall s junk t,
  forallb (fun c => negb (keep_numeric c)) (chars junk) = true ->
  parseVal (VStr (s ++ junk ++ t)) = parseVal (VStr (s ++ t)).
Proof.
  intros s junk t H. rewrite !parseVal_filtered, !sfilter_app, (sfilter_none _ _ H).
  reflexivity.
Qed.

Lemma parseVal_ignores_witness :
  parseVal (VStr "1e5") = parseVal (VStr "15") /\ parseVal (VStr "15") = 15%float.
Proof.
  split.
  - apply (parseVal_ignores "1" "e" "5"). reflexivity.
  - vm_compute. reflexivity.
Defined.

Lemma SFmul_comm : forall x y, SFmul prec emax x y = SFmul prec emax y x.
Proof.
  intros [sx|sx| |sx mx ex] [sy|sy| |sy my ey]; cbn [SFmul]; try reflexivity;
    try (rewrite xorb_comm; reflexivity).
  rewrite xorb_comm, Pos.mul_comm, Z.add_comm. reflexivity.
Qed.

Lemma mul_comm : forall a b : float, (a * b = b * a)%float.
Proof.
  intros a b. apply Prim2SF_inj. rewrite !mul_spec. apply SFmul_comm.
Qed.

Lemma sum_products_comm : forall xs ys acc,
  fold_left (fun a vw => a + fst vw * snd vw)%float (combine xs ys) acc
  = fold_left (fun a vw => a + fst vw * snd vw)%float (combine ys xs) acc.
Proof.
  induction xs as [|x xs IH]; intros [|y ys] acc; cbn [combine fold_left fst snd];
    try reflexivity.
  rewrite (mul_comm x y). apply IH.
Qed.

(** X2: the correlation is symmetric in its two columns. *)
Theorem computeCorrelation_symmetric : forall data x y,
  computeCorrelation data x y = computeCorrelation data y x.
Proof.
  intros data x y. unfold computeCorrelation.
  rewrite !length_map.
  destruct (Nat.ltb (List.length data) 2); [reflexivity|].
  rewrite (sum_products_comm (map (fun d => parseVal (cell d x)) data)).
  set (sx := fold_left add (map (fun d => parseVal (cell d x)) data) 0%float).
  set (sy := fold_left add (map (fun d => parseVal (cell d y)) data) 0%float).
  rewrite (mul_comm sx sy).
  set (A := (of_nat (List.length data) * fold_left (fun a v => a + v * v) (map (fun d => parseVal (cell d x)) data) 0 - sx * sx)%float).
  set (B := (of_nat (List.length data) * fold_left (fun a v => a + v * v) (map (fun d => parseVal (cell d y)) data) 0 - sy * sy)%float).
  rewrite (mul_comm A B). reflexivity.
Qed.

Lemma computeFullStats_none : forall data field,
  computeFullStats data field = None <-> column data field = [].
Proof.
  intros data field. unfold computeFullStats.
  destruct (column data field) as [|a l]; cbn [List.length Nat.eqb]; split; intros H;
    try reflexivity; discriminate H.
Qed.

Lemma column_empty : forall data field,
  column data field = [] <-> Forall (fun d => cell d field = VNum nan) data.
Proof.
  intros data field. unfold column. induction data as [|d data IH]; cbn [map filter].
  - split; [constructor|reflexivity].
  - destruct (isNaN (parseVal (cell d field))) eqn:E; cbn [negb].
    + apply parseVal_NaN in E. rewrite IH. split; intros H.
      * constructor; assumption.
      * inversion H; assumption.
    + split; [discriminate|]. intros H. inversion H as [|? ? H1 H2]; subst.
      apply parseVal_NaN in H1. congruence.
Qed.

Lemma statistics_model_get : forall data fields (m0 : obj stats) y st,
  get (fold_left (fun m field => match computeFullStats data field with
                                 | Some st => set m field st
                                 | None => m
                                 end) fields m0) y = Some st ->
  get m0 y = Some st \/ computeFullStats data y = Some st.
Proof.
  intros data fields. induction fields as [|f fields IH]; intros m0 y st H; cbn [fold_left] in H.
  - left. exact H.
  - apply IH in H as [H|H]; [|right; exact H].
    destruct (computeFullStats data f) as [sf|] eqn:E; [|left; exact H].
    rewrite get_set in H. destruct (String.eqb_spec f y) as [->|Hn]; [|left; exact H].
    right. rewrite E. exact H.
Qed.

Lemma runAuditLogic_none : forall now rnd p,
  inherited (p_y p) = false ->
  (runAuditLogic now rnd p = None
   <-> Forall (fun d => cell d (p_y p) = VNum nan) (p_masterData p)).
Proof.
  intros now rnd p Hy. rewrite <- column_empty, <- computeFullStats_none.
  unfold runAuditLogic. rewrite Hy.
  match goal with
  | |- context [get ?M (p_y p)] => destruct (get M (p_y p)) as [st|] eqn:E
  end.
  - apply statistics_model_get in E as [E|E]; [discriminate E|].
    rewrite E. split; discriminate.
  - destruct (computeFullStats (p_masterData p) (p_y p)); split; intros H;
      try reflexivity; discriminate H.
Qed.

(** X3: the audit fails (the code throws a [TypeError]) exactly when no row
    has a Y cell other than the number [NaN]: on an empty row set, and
    never on rows with a Y cell that is a string or is missing. *)
Theorem runAuditLogic_fails : forall now rnd p,
  inherited (p_y p) = false ->
  (runAuditLogic now rnd p = None
   <-> Forall (fun d => cell d (p_y p) = VNum nan) (p_masterData p)).
Proof. exact runAuditLogic_none. Qed.

Lemma runAuditLogic_fails_witness :
  runAuditLogic "t" "abcde"
    {| p_x := "k"; p_y := "v"; p_mode := "single"; p_collection := [];
       p_masterData := []; p_history := []; p_lastHash := None |} = None.
Proof.
  apply (runAuditLogic_fails "t" "abcde"); [reflexivity|constructor].
Defined.

Lemma advisory_some : forall st sh c xl yl d,
  Nat.ltb 0 (List.length (advisory (biAnalystBrain st sh c xl yl d))) = true.
Proof.
  intros. unfold biAnalystBrain. cbn [advisory]. unfold push_if.
  destruct (gt (concentration_of st) 40), (gt (Math_abs (volShift sh)) 15),
    (gt (stdDev st / num_or (mean st) 1) 1.2); reflexivity.
Qed.

Lemma runAuditLogic_fields : forall now rnd p r,
  runAuditLogic now rnd p = Some r ->
  (exists s1 rest, reportSections r = Some (s1 :: rest))
  /\ (exists m, r_statisticsModel r = Some m)
  /\ (exists pk, r_peaks r = Some pk)
  /\ (exists ms, r_metrics r = Some ms)
  /\ (exists adv, r_advisory r = Some adv /\ Nat.ltb 0 (List.length adv) = true)
  /\ trackId r = "TRK_" ++ toUpperCase rnd
  /\ timestamp r = now
  /\ r_hash r = generateHash (p_masterData p)
  /\ distributions r = getCategoricalStats (p_masterData p) (p_x p) (p_y p)
  /\ isDelta r = negb (match p_lastHash p with
                       | Some h => String.eqb (generateHash (p_masterData p)) h
                       | None => false
                       end).
Proof.
  intros now rnd p r H. unfold runAuditLogic in H.
  match type of H with
  | context [match ?X with Some _ => _ | None => None end] => destruct X as [ms|] eqn:E
  end; [|discriminate H].
  match type of H with
  | context [biAnalystBrain ?a ?b ?c ?d ?e ?f] =>
      pose proof (advisory_some a b c d e f) as Ha;
      remember (biAnalystBrain a b c d e f) as br
  end.
  injection H as <-.
  cbn [reportSections r_statisticsModel r_peaks r_metrics r_advisory trackId timestamp
       r_hash distributions isDelta].
  repeat split; try (eexists; reflexivity); try (do 2 eexists; reflexivity).
  eexists. split; [reflexivity|]. exact Ha.
Qed.

(** X4: a result of the audit passes the export check as soon as the report
    chart has been captured, and is then exported when popups are
    allowed. *)
Theorem audit_result_exports : forall now rnd p r snaps,
  runAuditLogic now rnd p = Some r ->
  validateReportCompleteness r snaps = present (reportChart snaps)
  /\ (present (reportChart snaps) = true ->
      exportReport (Some r) snaps true
      = ReportOpened (trackId r) (r_hash r) ("Report Exported: " ++ trackId r)).
Proof.
  intros now rnd p r snaps H.
  apply runAuditLogic_fields in H
    as ((s1 & rest & Hs) & (m & Hm) & (pk & Hp) & _ & (adv & Ha & Hl) & _).
  assert (E : validateReportCompleteness r snaps = present (reportChart snaps)).
  { unfold validateReportCompleteness. rewrite Hs, Hm, Hp, Ha, Hl. cbn.
    destruct (present (reportChart snaps)); reflexivity. }
  split; [exact E|]. intros Hc. unfold exportReport. rewrite E, Hc. reflexivity.
Qed.

Lemma audit_result_exports_witness :
  match runAuditLogic "t" "abcde"
          {| p_x := "k"; p_y := "v"; p_mode := "single"; p_collection := [];
             p_masterData := cells ["1"; "2"]; p_history := []; p_lastHash := None |} with
  | Some r =>
      validateReportCompleteness r {| mainEffect := None; reportChart := Some "data:" |} = true
  | None => False
  end.
Proof.
  destruct (runAuditLogic _ _ _) as [r|] eqn:E.
  - rewrite (proj1 (audit_result_exports _ _ _ _ _ E)). reflexivity.
  - vm_compute in E. discriminate E.
Defined.





Lemma executeAnalysis_run : forall now rnd pers x y mode coll rows st out st',
  executeAnalysis now rnd pers x y mode coll rows st = (out, st') ->
  let before := if Nat.eqb (List.length (auditHistory st)) 0 then pers else auditHistory st in
  let p := {| p_x := x; p_y := y; p_mode := mode; p_collection := coll;
              p_masterData := rows; p_history := firstn 5 before;
              p_lastHash := lastAnalysisHash st |} in
  let st1 := {| auditHistory := before; lastAnalysisHash := lastAnalysisHash st;
                savedAudits := savedAudits st |} in
  match runAuditLogic now rnd p with
  | Some r => out = Some r /\ st' = snd (finishAnalysis r st1)
  | None => out = None /\ st' = st1
  end.
Proof.
  intros now rnd pers x y mode coll rows [hist lastH saved] out st' H.
  unfold executeAnalysis in H. cbn [auditHistory lastAnalysisHash savedAudits] in *.
  cbv zeta.
  destruct (Nat.eqb (List.length hist) 0);
    cbn [auditHistory lastAnalysisHash savedAudits] in H;
    destruct (runAuditLogic now rnd _) as [r|]; injection H as <- <-; split; reflexivity.
Qed.

(** X6: what a run of [executeAnalysis] leaves in the orchestrator: the hash
    of the rows, the result saved, and a history whose head carries the
    time of the run. *)
Theorem executeAnalysis_state : forall now rnd pers x y mode coll rows st out st',
  executeAnalysis now rnd pers x y mode coll rows st = (out, st') ->
  let before := if Nat.eqb (List.length (auditHistory st)) 0 then pers else auditHistory st in
  match out with
  | Some r =>
      timestamp r = now
      /\ r_hash r = generateHash rows
      /\ lastAnalysisHash st' = Some (generateHash rows)
      /\ savedAudits st' = r :: savedAudits st
      /\ (auditHistory st' = r :: before
          \/ (auditHistory st' = before
              /\ exists h t, before = h :: t /\ timestamp h = now))
  | None =>
      lastAnalysisHash st' = lastAnalysisHash st
      /\ savedAudits st' = savedAudits st
      /\ auditHistory st' = before
  end.
Proof.
  intros now rnd pers x y mode coll rows st out st' H.
  apply executeAnalysis_run in H. cbv zeta in *.
  destruct (runAuditLogic now rnd _) as [r|] eqn:E; destruct H as [-> ->].
  - apply runAuditLogic_fields in E as (_ & _ & _ & _ & _ & _ & Ht & Hh & _).
    cbn [p_masterData] in Hh.
    unfold finishAnalysis. cbn [snd lastAnalysisHash savedAudits auditHistory].
    rewrite Hh. repeat split; try assumption.
    destruct (if Nat.eqb (List.length (auditHistory st)) 0 then pers else auditHistory st)
      as [|h t]; [left; reflexivity|].
    destruct (String.eqb_spec (timestamp h) (timestamp r)) as [Eq|Ne]; cbn [negb].
    + right. split; [reflexivity|]. exists h, t. split; [reflexivity|congruence].
    + left. reflexivity.
  - cbn [lastAnalysisHash savedAudits auditHistory]. auto.
Qed.

Lemma executeAnalysis_state_witness :
  match executeAnalysis "t" "abcde" [] "k" "v" "single" [] (cells ["1"; "2"]) fresh_engine with
  | (Some r, st') => timestamp r = "t" /\ auditHistory st' = [r]
  | (None, _) => False
  end.
Proof.
  destruct (executeAnalysis _ _ _ _ _ _ _ _ _) as [[r|] st'] eqn:E.
  - pose proof (executeAnalysis_state _ _ _ _ _ _ _ _ _ _ _ E) as (H1 & _ & _ & _ & H5).
    split; [exact H1|]. destruct H5 as [H5|(_ & h & t & H6 & _)]; [exact H5|discriminate H6].
  - vm_compute in E. discriminate E.
Defined.

(** X7: after [clearHistory] the next audit always reports a change of data,
    and starts again from the persisted history. *)
Theorem clearHistory_then_audit : forall now rnd pers x y mode coll rows st r st',
  executeAnalysis now rnd pers x y mode coll rows (clearHistory st) = (Some r, st') ->
  isDelta r = true
  /\ (exists p, runAuditLogic now rnd p = Some r /\ p_history p = firstn 5 pers)
  /\ (auditHistory st' = r :: pers \/ auditHistory st' = pers).
Proof.
  intros now rnd pers x y mode coll rows st r st' H.
  apply executeAnalysis_run in H. cbv zeta in *.
  cbn [clearHistory auditHistory lastAnalysisHash savedAudits List.length Nat.eqb] in H.
  destruct (runAuditLogic now rnd _) as [r'|] eqn:E; destruct H as [H ->]; [|discriminate H].
  injection H as <-.
  pose proof (runAuditLogic_fields _ _ _ _ E) as (_ & _ & _ & _ & _ & _ & _ & _ & _ & Hd).
  cbn [p_lastHash] in Hd. split; [exact Hd|]. split.
  - eexists. split; [exact E|reflexivity].
  - unfold finishAnalysis. cbn [snd auditHistory].
    destruct pers as [|h t]; [left; reflexivity|].
    destruct (negb (String.eqb (timestamp h) _)); [left|right]; reflexivity.
Qed.

Lemma clearHistory_then_audit_witness :
  match executeAnalysis "t" "abcde" [] "k" "v" "single" [] (cells ["1"; "2"])
          (clearHistory fresh_engine) with
  | (Some r, _) => isDelta r = true
  | (None, _) => False
  end.
Proof.
  destruct (executeAnalysis _ _ _ _ _ _ _ _ _) as [[r|] st'] eqn:E.
  - exact (proj1 (clearHistory_then_audit _ _ _ _ _ _ _ _ _ _ _ E)).
  - vm_compute in E. discriminate E.
Defined.

(** ** The hash of the rows *)

Lemma toInt32_mod : forall a b,
  (a mod 2 ^ 32 = b mod 2 ^ 32)%Z -> toInt32 a = toInt32 b.
Proof.
  intros a b H. unfold toInt32. f_equal.
  rewrite <- (Zplus_mod_idemp_l a), <- (Zplus_mod_idemp_l b), H. reflexivity.
Qed.

Lemma toInt32_idemp : forall a, (toInt32 a mod 2 ^ 32 = a mod 2 ^ 32)%Z.
Proof.
  intros a. unfold toInt32.
  rewrite Zminus_mod_idemp_l. f_equal. lia.
Qed.

Lemma hash_step_linear : forall h c,
  hash_step h c = toInt32 (31 * h + Z.of_N (code c)).
Proof.
  intros h c. unfold hash_step. apply toInt32_mod.
  rewrite <- Zplus_mod_idemp_l, <- Zminus_mod_idemp_l, toInt32_idemp,
    Zminus_mod_idemp_l, Zplus_mod_idemp_l.
  f_equal. lia.
Qed.

Lemma hash_two_steps : forall h a b,
  hash_step (hash_step h a) b
  = toInt32 (961 * h + (31 * Z.of_N (code a) + Z.of_N (code b))).
Proof.
  intros h a b. rewrite (hash_step_linear _ b), (hash_step_linear h a).
  apply toInt32_mod.
  rewrite <- Zplus_mod_idemp_l, <- Zmult_mod_idemp_r, toInt32_idemp,
    Zmult_mod_idemp_r, Zplus_mod_idemp_l.
  f_equal. lia.
Qed.

(** X8: the hash used to detect a change of data does not tell "Aa" from
    "BB": two serialisations that differ only there have the same hash. *)
Theorem generateHash_collides : forall d1 d2 before after,
  stringify d1 = before ++ "Aa" ++ after ->
  stringify d2 = before ++ "BB" ++ after ->
  generateHash d1 = generateHash d2.
Proof.
  intros d1 d2 before after H1 H2. unfold generateHash.
  rewrite H1, H2, !chars_app, !fold_left_app. f_equal. f_equal.
  cbn [chars list_ascii_of_string fold_left]. rewrite !hash_two_steps. reflexivity.
Qed.

Lemma generateHash_collides_witness :
  generateHash (cells ["Aa"]) = generateHash (cells ["BB"])
  /\ stringify (cells ["Aa"]) <> stringify (cells ["BB"]).
Proof.
  split.
  - apply (generateHash_collides _ _
             (str ("["%char :: "{"%char :: quote_char :: "v"%char :: quote_char
                   :: ":"%char :: [quote_char]))
             (str (quote_char :: "}"%char :: ["]"%char]))); reflexivity.
  - vm_compute. discriminate.
Defined.

(** ** Labels *)























(** ** The data engine: schema discovery and storage *)

Lemma classify_fold : forall D data l sch,
  fold_left (DataEngine.classify D data) l sch
  = {| DataEngine.numerical :=
         DataEngine.numerical sch ++ filter (numeric_column data) l;
       DataEngine.categorical :=
         DataEngine.categorical sch
         ++ filter (fun h => negb (numeric_column data h) && negb (date_column D data h)) l;
       DataEngine.temporal :=
         DataEngine.temporal sch
         ++ filter (fun h => negb (numeric_column data h) && date_column D data h) l |}%list.
Proof.
  intros D data. induction l as [|h l IH]; intros [n c t].
  - cbn. rewrite !app_nil_r. reflexivity.
  - cbn [fold_left filter]. rewrite IH. unfold DataEngine.classify.
    fold (numeric_column data h). fold (date_column D data h).
    destruct (numeric_column data h), (date_column D data h);
      cbn [negb andb DataEngine.numerical DataEngine.categorical DataEngine.temporal];
      rewrite <- ?app_assoc; reflexivity.
Qed.

Lemma discoverSchema_fields : forall D d0 rest,
  let data := d0 :: rest in
  let s := DataEngine.discoverSchema D data in
  DataEngine.numerical s = filter (numeric_column data) (keys d0)
  /\ DataEngine.temporal s
     = filter (fun h => negb (numeric_column data h) && date_column D data h) (keys d0)
  /\ DataEngine.categorical s
     = filter (fun h => negb (numeric_column data h) && negb (date_column D data h)) (keys d0).
Proof.
  intros D d0 rest data s. unfold s, DataEngine.discoverSchema, data.
  rewrite classify_fold. cbn. repeat split; reflexivity.
Qed.

(** X10: the schema sorts the headers of the first row into three classes,
    each in the order of the headers: a header is numerical, temporal or
    categorical, and in one class only. *)
Theorem discoverSchema_classes : forall D d0 rest,
  let data := d0 :: rest in
  let s := DataEngine.discoverSchema D data in
  DataEngine.numerical s = filter (numeric_column data) (keys d0)
  /\ DataEngine.temporal s
     = filter (fun h => negb (numeric_column data h) && date_column D data h) (keys d0)
  /\ DataEngine.categorical s
     = filter (fun h => negb (numeric_column data h) && negb (date_column D data h)) (keys d0).
Proof. exact discoverSchema_fields. Qed.

Lemma numeric_column_sample : forall data h,
  numeric_column (firstn 10 data) h = numeric_column data h.
Proof. intros. unfold numeric_column. rewrite firstn_firstn. reflexivity. Qed.

Lemma date_column_sample : forall D data h,
  date_column D (firstn 10 data) h = date_column D data h.
Proof. intros. unfold date_column. rewrite firstn_firstn. reflexivity. Qed.

(** X11: the schema is that of the first ten rows: no later row has a say. *)
Theorem discoverSchema_sample : forall D data,
  DataEngine.discoverSchema D data = DataEngine.discoverSchema D (firstn 10 data).
Proof.
  intros D [|d0 rest]; [reflexivity|].
  change (firstn 10 (d0 :: rest)) with (d0 :: firstn 9 rest).
  unfold DataEngine.discoverSchema. rewrite !classify_fold.
  change (d0 :: firstn 9 rest) with (firstn 10 (d0 :: rest)).
  f_equal; f_equal; apply filter_ext; intros h;
    rewrite ?numeric_column_sample, ?date_column_sample; reflexivity.
Qed.



Lemma no_filter : forall A (P : A -> bool) l,
  Nat.eqb (List.length (filter P l)) 0 = negb (existsb P l).
Proof.
  intros A P. induction l as [|a l IH]; [reflexivity|].
  cbn [filter existsb]. destruct (P a); [reflexivity|exact IH].
Qed.

Lemma existsb_split : forall A (P Q : A -> bool) l,
  existsb (fun h => negb (P h)) l
  = existsb (fun h => negb (P h) && negb (Q h)) l || existsb (fun h => negb (P h) && Q h) l.
Proof.
  intros A P Q. induction l as [|a l IH]; [reflexivity|].
  cbn [existsb]. rewrite IH. destruct (P a), (Q a); cbn [negb andb orb];
    rewrite ?orb_true_r; try reflexivity;
    destruct (existsb (fun h => negb (P h) && negb (Q h)) l); reflexivity.
Qed.

Lemma storeDataset_outcome_eq : forall D id name rows st,
  let clean := DataEngine.cleanData rows in
  snd (DataEngine.storeDataset D id name rows st)
  = match clean with
    | [] => DataEngine.NoRows
    | d0 :: _ =>
        if coordinates clean then
          DataEngine.Stored
            {| DataEngine.id := id; DataEngine.name := name; DataEngine.data := clean;
               DataEngine.headers := keys d0;
               DataEngine.dschema := DataEngine.discoverSchema D clean;
               DataEngine.hash := DataEngine.generateHash clean |}
        else DataEngine.Rejected
               ("Governance Alert: Dataset [" ++ name
                ++ "] rejected due to insufficient coordinate validity.")
    end.
Proof.
  intros D id name rows st clean. unfold DataEngine.storeDataset. fold clean.
  destruct clean as [|d0 rest] eqn:E; [reflexivity|].
  cbn [List.length Nat.eqb].
  destruct (discoverSchema_fields D d0 rest) as (Hn & Ht & Hc). cbv zeta in Hn, Ht, Hc.
  rewrite Hn, Ht, Hc, !no_filter. unfold coordinates. cbn [hd].
  rewrite (existsb_split _ (numeric_column (d0 :: rest)) (date_column D (d0 :: rest))).
  destruct (existsb (numeric_column (d0 :: rest)) (keys d0)); cbn [negb orb andb];
    [|reflexivity].
  destruct (existsb (fun h => negb (numeric_column (d0 :: rest) h)
                              && negb (date_column D (d0 :: rest) h)) (keys d0));
    cbn [negb orb andb]; [reflexivity|].
  destruct (existsb (fun h => negb (numeric_column (d0 :: rest) h)
                              && date_column D (d0 :: rest) h) (keys d0));
    reflexivity.
Qed.

(** X12: [storeDataset] stores the cleaned rows exactly when there are some and
    they have coordinates; what the date parser answers decides between
    temporal and categorical, never whether the dataset is accepted. *)
Theorem storeDataset_outcome : forall D id name rows st,
  let clean := DataEngine.cleanData rows in
  snd (DataEngine.storeDataset D id name rows st)
  = match clean with
    | [] => DataEngine.NoRows
    | d0 :: _ =>
        if coordinates clean then
          DataEngine.Stored
            {| DataEngine.id := id; DataEngine.name := name; DataEngine.data := clean;
               DataEngine.headers := keys d0;
               DataEngine.dschema := DataEngine.discoverSchema D clean;
               DataEngine.hash := DataEngine.generateHash clean |}
        else DataEngine.Rejected
               ("Governance Alert: Dataset [" ++ name
                ++ "] rejected due to insufficient coordinate validity.")
    end.
Proof. exact storeDataset_outcome_eq. Qed.


Lemma get_delete : forall A (o : obj A) k k',
  get (delete o k) k' = if String.eqb k k' then None else get o k'.
Proof.
  intros A o k k'. unfold delete. induction o as [|[k0 v0] o IH]; cbn [filter get fst].
  - destruct (String.eqb k k'); reflexivity.
  - destruct (String.eqb_spec k0 k) as [->|Hn]; cbn [negb get].
    + rewrite IH. destruct (String.eqb_spec k k'); reflexivity.
    + rewrite IH. destruct (String.eqb_spec k k') as [->|Hn'].
      * destruct (String.eqb_spec k0 k'); [contradiction|reflexivity].
      * reflexivity.
Qed.

(** X13: a stored dataset is found again under its id, and no more once it is
    removed; storing and removing touch no other dataset and leave the
    working row set as it is. *)
Theorem storeDataset_lookup : forall D id name rows st st' ds,
  DataEngine.storeDataset D id name rows st = (st', DataEngine.Stored ds) ->
  id <> "__proto__" ->
  get (DataEngine.datasetCollection st') id = Some ds
  /\ (forall id', id' <> id ->
        get (DataEngine.datasetCollection st') id' = get (DataEngine.datasetCollection st) id')
  /\ DataEngine.masterData st' = DataEngine.masterData st
  /\ get (DataEngine.datasetCollection (DataEngine.removeDataset id st')) id = None
  /\ (forall id', id' <> id ->
        get (DataEngine.datasetCollection (DataEngine.removeDataset id st')) id'
        = get (DataEngine.datasetCollection st) id')
  /\ DataEngine.masterData (DataEngine.removeDataset id st') = DataEngine.masterData st.
Proof.
  intros D id name rows st st' ds H Hid. unfold DataEngine.storeDataset in H.
  destruct (Nat.eqb _ 0); [discriminate H|].
  destruct (_ || _); [discriminate H|].
  injection H as <- <-. cbn [DataEngine.datasetCollection DataEngine.masterData DataEngine.removeDataset].
  unfold assign. destruct (String.eqb_spec id "__proto__") as [E|_]; [contradiction|].
  rewrite !get_delete, !get_set, String.eqb_refl.
  repeat split; try reflexivity; intros id' Hn; rewrite ?get_delete, get_set;
    destruct (String.eqb_spec id id'); try congruence; reflexivity.
Qed.







Lemma storeDataset_lookup_witness :
  match DataEngine.storeDataset no_parser "ds_1" "a.csv" two_column_rows empty_state with
  | (st', DataEngine.Stored ds) => get (DataEngine.datasetCollection st') "ds_1" = Some ds
  | _ => False
  end.
Proof.
  destruct (DataEngine.storeDataset _ _ _ _ _) as [st' [| |ds]] eqn:E;
    try (vm_compute in E; discriminate E).
  apply (storeDataset_lookup _ _ _ _ _ _ _ E). discriminate.
Defined.

Lemma drop_spaces_idem : forall l, drop_spaces (drop_spaces l) = drop_spaces l.
Proof.
  induction l as [|c l IH]; [reflexivity|].
  cbn [drop_spaces]. destruct (is_space c) eqn:E; [exact IH|].
  cbn [drop_spaces]. rewrite E. reflexivity.
Qed.

Lemma drop_spaces_snoc : forall l c,
  is_space c = false -> exists b, drop_spaces (l ++ [c]) = (b ++ [c])%list.
Proof.
  induction l as [|a l IH]; intros c Hc; cbn [app drop_spaces].
  - rewrite Hc. exists []. reflexivity.
  - destruct (is_space a); [apply IH; exact Hc|].
    exists (a :: l). reflexivity.
Qed.

Lemma drop_spaces_length : forall l, List.length (drop_spaces l) <= List.length l.
Proof.
  induction l as [|c l IH]; cbn [drop_spaces List.length]; [lia|].
  destruct (is_space c); cbn [List.length]; lia.
Qed.

Lemma trimmed_head : forall a,
  drop_spaces a = a ->
  drop_spaces (rev (drop_spaces (rev a))) = rev (drop_spaces (rev a)).
Proof.
  intros [|c a] H; [reflexivity|].
  assert (Hc : is_space c = false).
  { destruct (is_space c) eqn:E; [|reflexivity]. cbn [drop_spaces] in H. rewrite E in H.
    pose proof (drop_spaces_length a) as L. rewrite H in L. cbn in L. lia. }
  cbn [rev]. destruct (drop_spaces_snoc (rev a) c Hc) as [b ->].
  rewrite rev_app_distr. cbn [rev app drop_spaces]. rewrite Hc. reflexivity.
Qed.

Lemma trim_idem : forall s, trim (trim s) = trim s.
Proof.
  intros s. unfold trim. rewrite chars_str.
  set (a := drop_spaces (chars s)).
  rewrite (trimmed_head a) by apply drop_spaces_idem.
  rewrite rev_involutive, drop_spaces_idem. reflexivity.
Qed.



Lemma set_Forall : forall A (Q : string * A -> Prop) o k v,
  Forall Q o -> Q (k, v) -> Forall Q (set o k v).
Proof.
  intros A Q. induction o as [|[k0 v0] o IH]; intros k v Ho Hq; cbn [set].
  - constructor; [exact Hq|constructor].
  - inversion Ho as [|? ? H0 Ho']; subst.
    destruct (String.eqb_spec k0 k) as [->|Hn]; constructor; auto.
Qed.

Lemma assign_Forall : forall A (Q : string * A -> Prop) o k v,
  Forall Q o -> Q (k, v) -> Forall Q (assign o k v).
Proof.
  intros A Q o k v Ho Hq. unfold assign. destruct (String.eqb k "__proto__"); [exact Ho|].
  apply set_Forall; assumption.
Qed.

Lemma set_NoDup : forall A (o : obj A) k v, NoDup (map fst o) -> NoDup (map fst (set o k v)).
Proof. intros A o k v H. rewrite keys_set. apply add_key_NoDup. exact H. Qed.

Lemma cleanRow_invariant : forall r,
  Forall clean_property (DataEngine.cleanRow r) /\ NoDup (map fst (DataEngine.cleanRow r)).
Proof.
  intros r. unfold DataEngine.cleanRow.
  assert (G : forall l (o : row), Forall clean_property o /\ NoDup (map fst o) ->
            let f := fun (o : row) key =>
                       assign o (trim key)
                         (VStr (trim (ToString (match cell r key with
                                                | VNull | VUndef => VStr ""
                                                | v => v
                                                end)))) in
            Forall clean_property (fold_left f l o) /\ NoDup (map fst (fold_left f l o))).
  { induction l as [|k l IH]; intros o [H1 H2] f; [split; assumption|].
    cbn [fold_left]. apply IH. split.
    - apply assign_Forall; [exact H1|]. split; [apply trim_idem|].
      eexists. split; [reflexivity|apply trim_idem].
    - unfold f, assign. destruct (String.eqb (trim k) "__proto__"); [exact H2|].
      apply set_NoDup. exact H2. }
  apply G. split; constructor.
Qed.

Lemma get_In : forall A (o : obj A) k v, get o k = Some v -> In (k, v) o.
Proof.
  intros A. induction o as [|[k0 v0] o IH]; intros k v H; cbn [get] in H; [discriminate|].
  destruct (String.eqb_spec k0 k) as [->|Hn].
  - injection H as <-. left. reflexivity.
  - right. apply IH. exact H.
Qed.

Lemma In_get : forall A (o : obj A) k v,
  NoDup (map fst o) -> In (k, v) o -> get o k = Some v.
Proof.
  intros A. induction o as [|[k0 v0] o IH]; intros k v Hn Hin; [destruct Hin|].
  cbn [map fst] in Hn. inversion Hn as [|? ? Hk Hn']; subst. cbn [get].
  destruct Hin as [E|Hin].
  - injection E as -> ->. rewrite String.eqb_refl. reflexivity.
  - destruct (String.eqb_spec k0 k) as [->|Hne]; [|apply IH; assumption].
    exfalso. apply Hk. apply in_map_iff. exists (k, v). split; [reflexivity|exact Hin].
Qed.

Lemma cleanData_row : forall rows r,
  In r (DataEngine.cleanData rows) ->
  (forall k v, get r k = Some v -> clean_property (k, v))
  /\ (exists k s, get r k = Some (VStr s) /\ s <> "").
Proof.
  intros rows r H. unfold DataEngine.cleanData in H.
  apply filter_In in H as [H1 H2]. apply in_map_iff in H1 as (r0 & <- & _).
  destruct (cleanRow_invariant r0) as [Hq Hn]. split.
  - intros k v Hg. apply get_In in Hg. rewrite Forall_forall in Hq. apply Hq. exact Hg.
  - apply existsb_exists in H2 as (v & Hv & Hne). unfold values in Hv.
    apply in_map_iff in Hv as ([k v'] & Ev & Hin). cbn [snd] in Ev. subst v'.
    apply (Permutation_in _ (Permutation_sym (entries_perm _ _))) in Hin.
    pose proof Hin as Hc. rewrite Forall_forall in Hq. apply Hq in Hc as [_ (s & Es & _)].
    cbn [snd] in Es. subst v.
    exists k, s. split; [apply In_get; assumption|].
    cbn [DataEngine.not_empty_string] in Hne. intros ->. discriminate Hne.
Qed.

(** X14: every row that [storeDataset] keeps holds only trimmed strings under
    trimmed keys, and at least one string that is not empty. *)
Theorem cleanData_cells : forall rows r,
  In r (DataEngine.cleanData rows) ->
  (forall k v, get r k = Some v -> trim k = k /\ exists s, v = VStr s /\ trim s = s)
  /\ (exists k s, get r k = Some (VStr s) /\ s <> "").
Proof.
  intros rows r H. destruct (cleanData_row rows r H) as [H1 H2]. split; [|exact H2].
  intros k v Hg. exact (H1 k v Hg).
Qed.

Lemma cleanData_cells_witness :
  trim "k" = "k" /\ exists s, VStr "a" = VStr s /\ trim s = s.
Proof.
  apply (proj1 (cleanData_cells two_column_rows [("k", VStr "a"); ("v", VStr "1")]
                  ltac:(vm_compute; left; reflexivity)) "k" (VStr "a")).
  reflexivity.
Defined.

(** X15: a dataset that [storeDataset] accepted can be audited on any column:
    the audit of its rows does not throw. *)
Theorem stored_dataset_audits : forall D id name rows st st' ds,
  DataEngine.storeDataset D id name rows st = (st', DataEngine.Stored ds) ->
  forall now rnd x y mode coll hist lastHash,
    inherited y = false ->
    exists r,
      runAuditLogic now rnd
        {| p_x := x; p_y := y; p_mode := mode; p_collection := coll;
           p_masterData := DataEngine.data ds; p_history := hist;
           p_lastHash := lastHash |} = Some r.
Proof.
  intros D id name rows st st' ds H now rnd x y mode coll hist lastHash Hy.
  pose proof (storeDataset_outcome_eq D id name rows st) as Ho. rewrite H in Ho. cbn [snd] in Ho.
  destruct (DataEngine.cleanData rows) as [|d0 rest] eqn:E; [discriminate Ho|].
  destruct (coordinates (d0 :: rest)); [|discriminate Ho]. injection Ho as ->.
  cbn [DataEngine.data].
  destruct (runAuditLogic now rnd _) as [r|] eqn:R; [eexists; reflexivity|exfalso].
  apply runAuditLogic_none in R; [|exact Hy]. cbn [p_masterData p_y] in R.
  inversion R as [|? ? H0 _]; subst.
  assert (Hin : In d0 (DataEngine.cleanData rows)) by (rewrite E; left; reflexivity).
  destruct (cleanData_row rows d0 Hin) as [Hc _].
  unfold cell in H0. destruct (get d0 y) as [v|] eqn:G; [|discriminate H0].
  apply Hc in G as [_ (s & Es & _)]. cbn [snd] in Es. congruence.
Qed.

Lemma stored_dataset_audits_witness :
  exists r,
    runAuditLogic "t" "abcde"
      {| p_x := "k"; p_y := "v"; p_mode := "single"; p_collection := [];
         p_masterData := DataEngine.data stored_dataset; p_history := [];
         p_lastHash := None |} = Some r.
Proof.
  apply (stored_dataset_audits no_parser "ds_1" "a.csv" two_column_rows empty_state
           stored_state stored_dataset); reflexivity.
Defined.

(** ** The data engine: reconciliation and candidates *)

Lemma In_get_some : forall A (o : obj A) k v, In (k, v) o -> exists v', get o k = Some v'.
Proof.
  intros A. induction o as [|[k0 v0] o IH]; intros k v H; [destruct H|]. cbn [get].
  destruct (String.eqb_spec k0 k); [eexists; reflexivity|].
  destruct H as [E|H]; [congruence|]. eapply IH. exact H.
Qed.

Lemma keys_get : forall A (o : obj A) k, In k (keys o) <-> exists v, get o k = Some v.
Proof.
  intros A o k. unfold keys. rewrite in_map_iff. split.
  - intros ([k' v] & E & H). cbn [fst] in E. subst k'.
    apply (Permutation_in _ (Permutation_sym (entries_perm _ _))) in H.
    eapply In_get_some. exact H.
  - intros [v H]. apply get_In in H. exists (k, v). split; [reflexivity|].
    apply (Permutation_in _ (entries_perm _ _)). exact H.
Qed.

Lemma includes_In : forall l h, DataEngine.includes l h = true <-> In h l.
Proof.
  intros l h. unfold DataEngine.includes. rewrite existsb_exists. split.
  - intros (x & H & E). apply String.eqb_eq in E. subst. exact H.
  - intros H. exists h. split; [exact H|apply String.eqb_refl].
Qed.

Lemma shared_fold : forall (coll : obj DataEngine.dataset) ids init h,
  In h (fold_left (fun shared id => match get coll id with
                                    | Some ds => filter (DataEngine.includes (DataEngine.headers ds)) shared
                                    | None => shared
                                    end) ids init)
  <-> In h init /\ forall id ds, In id ids -> get coll id = Some ds -> In h (DataEngine.headers ds).
Proof.
  intros coll. induction ids as [|id ids IH]; intros init h; cbn [fold_left].
  - split; [intros H; split; [exact H|intros ? ? []]|intros [H _]; exact H].
  - rewrite IH. destruct (get coll id) as [ds|] eqn:G.
    + rewrite filter_In, includes_In. split.
      * intros [[H1 H2] H3]. split; [exact H1|]. intros id' ds' [<-|Hin] Hg.
        -- rewrite G in Hg. injection Hg as <-. exact H2.
        -- eapply H3; eassumption.
      * intros [H1 H2]. split; [split; [exact H1|]|].
        -- apply (H2 id ds); [left; reflexivity|exact G].
        -- intros id' ds' Hin Hg. apply (H2 id' ds'); [right; exact Hin|exact Hg].
    + split.
      * intros [H1 H3]. split; [exact H1|]. intros id' ds' [<-|Hin] Hg; [congruence|].
        eapply H3; eassumption.
      * intros [H1 H2]. split; [exact H1|]. intros id' ds' Hin Hg.
        apply (H2 id' ds'); [right; exact Hin|exact Hg].
Qed.

Lemma pool_fold : forall (coll : obj DataEngine.dataset) ids pool,
  NoDup pool ->
  NoDup (fold_left (fun pool id => fold_left DataEngine.set_add (DataEngine.headers_of coll id) pool) ids pool)
  /\ forall h,
       In h (fold_left (fun pool id => fold_left DataEngine.set_add (DataEngine.headers_of coll id) pool) ids pool)
       <-> In h pool \/ exists id, In id ids /\ In h (DataEngine.headers_of coll id).
Proof.
  intros coll. induction ids as [|id ids IH]; intros pool Hn; cbn [fold_left].
  - split; [exact Hn|]. intros h. split; [auto|intros [H|(? & [] & _)]; exact H].
  - assert (Hn' : NoDup (fold_left DataEngine.set_add (DataEngine.headers_of coll id) pool)).
    { change DataEngine.set_add with add_key. apply fold_add_key_NoDup. exact Hn. }
    destruct (IH _ Hn') as [N I]. split; [exact N|].
    intros h. rewrite I. change DataEngine.set_add with add_key. rewrite fold_add_key_In.
    split.
    + intros [[H|H]|(id' & H1 & H2)]; [left; exact H|right..].
      * exists id. split; [left; reflexivity|exact H].
      * exists id'. split; [right; exact H1|exact H2].
    + intros [H|(id' & [<-|H1] & H2)]; [left; left; exact H|left; right; exact H2|].
      right. exists id'. split; assumption.
Qed.

(** X16: the shared headers are the headers that every dataset has, the pool
    of all headers holds each header of some dataset once, and a shared
    header is in the pool. *)
Theorem reconcileCollection_headers : forall S mode st,
  keys (DataEngine.datasetCollection st) <> [] ->
  let coll := DataEngine.datasetCollection st in
  let rc := DataEngine.reconcileCollection S mode st in
  (forall h, In h (DataEngine.sharedHeaders rc)
             <-> forall id, In id (keys coll) -> In h (DataEngine.headers_of coll id))
  /\ (forall h, In h (DataEngine.allHeaders rc)
                <-> exists id, In id (keys coll) /\ In h (DataEngine.headers_of coll id))
  /\ NoDup (DataEngine.allHeaders rc)
  /\ (forall h, In h (DataEngine.sharedHeaders rc) -> In h (DataEngine.allHeaders rc)).
Proof.
  intros S mode st Hk coll rc. unfold rc, DataEngine.reconcileCollection. fold coll.
  destruct (keys coll) as [|id0 ids] eqn:E; [contradiction|].
  cbn [List.length Nat.eqb DataEngine.sharedHeaders DataEngine.allHeaders hd].
  rewrite <- E.
  assert (H0 : In id0 (keys coll)) by (rewrite E; left; reflexivity).
  assert (Hs : forall h,
             In h (fold_left (fun shared id => match get coll id with
                                    | Some ds => filter (DataEngine.includes (DataEngine.headers ds)) shared
                                    | None => shared
                                    end) (keys coll) (DataEngine.headers_of coll id0))
             <-> forall id, In id (keys coll) -> In h (DataEngine.headers_of coll id)).
  { intros h. rewrite shared_fold. split.
    - intros [_ H] id Hin. unfold DataEngine.headers_of.
      pose proof Hin as Hg. apply keys_get in Hg as [ds Hg]. rewrite Hg. eapply H; eassumption.
    - intros H. split; [apply H; exact H0|]. intros id ds Hin Hg.
      specialize (H id Hin). unfold DataEngine.headers_of in H. rewrite Hg in H. exact H. }
  destruct (pool_fold coll (keys coll) [] ltac:(constructor)) as [Hn Hp].
  split; [exact Hs|]. split; [|split; [exact Hn|]].
  - intros h. rewrite Hp. split; [intros [[]|H]; exact H|auto].
  - intros h Hh. apply Hp. right. exists id0. split; [exact H0|]. apply Hs; assumption.
Qed.

Lemma reconcileCollection_headers_witness :
  NoDup (DataEngine.allHeaders
           (DataEngine.reconcileCollection (fun _ => "") "single" stored_state)).
Proof.
  apply (reconcileCollection_headers (fun _ => "") "single" stored_state). discriminate.
Defined.

Lemma rows_fold : forall (coll : obj DataEngine.dataset) ids acc,
  fold_left (fun acc id => acc + List.length (DataEngine.data_of coll id))%nat ids acc
  = (acc + List.length (flat_map (DataEngine.data_of coll) ids))%nat.
Proof.
  intros coll. induction ids as [|id ids IH]; intros acc; cbn [fold_left flat_map].
  - cbn. lia.
  - rewrite IH, length_app. lia.
Qed.

(** X17: the row count that [reconcileCollection] reports is the size of the
    working row set that [prepareMasterData] builds in union mode. *)
Theorem reconcileCollection_totalRows : forall S mode st,
  DataEngine.totalRows (DataEngine.reconcileCollection S mode st)
  = List.length (DataEngine.masterData (DataEngine.prepareMasterData "union" st)).
Proof.
  intros S mode st. unfold DataEngine.reconcileCollection, DataEngine.prepareMasterData.
  destruct (Nat.eqb (List.length (keys (DataEngine.datasetCollection st))) 0); [reflexivity|].
  cbn [String.eqb Ascii.eqb Bool.eqb DataEngine.totalRows DataEngine.masterData].
  apply rows_fold.
Qed.

Lemma best_fold : forall rows l (b : float * string),
  let best :=
    fold_left (fun (b : float * string) h =>
                 let variance := DataEngine.spread rows h in
                 if gt variance (fst b) then (variance, h) else b) l b in
  snd best = snd b \/ In (snd best) l.
Proof.
  intros rows. induction l as [|h l IH]; intros b; [left; reflexivity|].
  cbv zeta in *. cbn [fold_left].
  destruct (gt (DataEngine.spread rows h) (fst b)).
  - destruct (IH (DataEngine.spread rows h, h)) as [H|H]; [|right; right; exact H].
    right. left. rewrite H. reflexivity.
  - destruct (IH b) as [H|H]; [left; exact H|right; right; exact H].
Qed.

(** X18: the candidate Y is a numerical column of the latest dataset and the
    candidate Z another one, or none; the candidate X is a temporal or
    categorical column when there is one, and then differs from Y for a
    schema that [discoverSchema] made. *)
Theorem getCoordinateCandidates_picks : forall st ds,
  get (DataEngine.datasetCollection st) (last (keys (DataEngine.datasetCollection st)) "")
  = Some ds ->
  DataEngine.numerical (DataEngine.dschema ds) <> [] ->
  let sch := DataEngine.dschema ds in
  let c := DataEngine.getCoordinateCandidates st in
  In (DataEngine.cy c) (DataEngine.numerical sch)
  /\ (DataEngine.cz c = ""
      \/ (In (DataEngine.cz c) (DataEngine.numerical sch)
          /\ DataEngine.cz c <> DataEngine.cy c))
  /\ (DataEngine.temporal sch <> [] \/ DataEngine.categorical sch <> [] ->
      exists x, DataEngine.cx c = Some x
                /\ In x (DataEngine.temporal sch ++ DataEngine.categorical sch)
                /\ forall D, DataEngine.data ds <> [] ->
                             sch = DataEngine.discoverSchema D (DataEngine.data ds) ->
                             x <> DataEngine.cy c).
Proof.
  intros st ds Hg Hnum sch c.
  assert (Hk : Nat.eqb (List.length (keys (DataEngine.datasetCollection st))) 0 = false).
  { destruct (keys (DataEngine.datasetCollection st)) as [|k l] eqn:E; [|reflexivity].
    assert (Hin : In "" (keys (DataEngine.datasetCollection st))).
    { apply keys_get. eexists. exact Hg. }
    rewrite E in Hin. destruct Hin. }
  unfold c, DataEngine.getCoordinateCandidates. rewrite Hk, Hg. fold sch.
  destruct (DataEngine.numerical sch) as [|h0 hs] eqn:En; [contradiction|].
  cbn [DataEngine.cx DataEngine.cy DataEngine.cz].
  set (best := fold_left _ (h0 :: hs) _).
  assert (Hy : In (snd best) (h0 :: hs)).
  { unfold best. destruct (best_fold (DataEngine.data ds) (h0 :: hs) ((-1)%float, h0)) as [H|H].
    - cbv zeta in H. rewrite H. left. reflexivity.
    - exact H. }
  split; [exact Hy|]. split.
  - destruct (find _ (h0 :: hs)) as [z|] eqn:F; [|left; reflexivity].
    apply find_some in F as [F1 F2]. right. split; [exact F1|].
    apply negb_true_iff in F2. apply String.eqb_neq in F2. exact F2.
  - intros Hx.
    assert (Hxy : forall x, In x (DataEngine.temporal sch ++ DataEngine.categorical sch) ->
                  forall D, DataEngine.data ds <> [] ->
                            sch = DataEngine.discoverSchema D (DataEngine.data ds) ->
                            x <> snd best).
    { intros x Hin D Hd Hs Exy. destruct (DataEngine.data ds) as [|d0 rest] eqn:Ed; [contradiction|].
      destruct (discoverSchema_fields D d0 rest) as (Pn & Pt & Pc). cbv zeta in Pn, Pt, Pc.
      rewrite <- Hs in Pn, Pt, Pc. rewrite En in Pn.
      rewrite Pn in Hy. rewrite <- Exy in Hy. apply filter_In in Hy as [_ Hy].
      rewrite Pt, Pc in Hin. apply in_app_iff in Hin as [Hin|Hin];
        apply filter_In in Hin as [_ Hin]; rewrite Hy in Hin; discriminate Hin. }
    destruct (DataEngine.temporal sch) as [|t ts] eqn:Et.
    + destruct (DataEngine.categorical sch) as [|k ks] eqn:Ec; [destruct Hx; congruence|].
      exists k. split; [reflexivity|]. split; [left; reflexivity|].
      apply Hxy. left. reflexivity.
    + exists t. split; [reflexivity|]. split; [left; reflexivity|].
      apply Hxy. left. reflexivity.
Qed.

Lemma getCoordinateCandidates_picks_witness :
  In (DataEngine.cy (DataEngine.getCoordinateCandidates stored_state))
     (DataEngine.numerical (DataEngine.dschema stored_dataset)).
Proof.
  apply (getCoordinateCandidates_picks stored_state stored_dataset);
    [reflexivity|discriminate].
Defined.

(** ** The data engine: hydration and the working row set *)

Lemma set_fresh : forall A (o : obj A) k v, get o k = None -> set o k v = (o ++ [(k, v)])%list.
Proof.
  intros A. induction o as [|[k0 v0] o IH]; intros k v H; [reflexivity|].
  cbn [get] in H. cbn [set app]. destruct (String.eqb k0 k); [discriminate H|].
  rewrite IH by exact H. reflexivity.
Qed.

Lemma keys_fresh : forall A (o : obj A) k v,
  get o k = None -> is_array_index k = false -> keys (set o k v) = (keys o ++ [k])%list.
Proof.
  intros A o k v Hg Hi. rewrite set_fresh by exact Hg. unfold keys, entries.
  rewrite !filter_app. cbn [filter fst]. rewrite Hi. cbn [negb].
  rewrite app_nil_r, !map_app. cbn [map fst]. rewrite app_assoc. reflexivity.
Qed.

(** X20: after a dataset is stored under a fresh id that is no array
    index, the working row set of the single mode is the cleaned rows of
    that dataset. *)
Theorem storeDataset_then_single : forall D id name rows st st' ds,
  DataEngine.storeDataset D id name rows st = (st', DataEngine.Stored ds) ->
  id <> "__proto__" -> is_array_index id = false ->
  get (DataEngine.datasetCollection st) id = None ->
  DataEngine.masterData (DataEngine.prepareMasterData "single" st') = DataEngine.cleanData rows
  /\ DataEngine.data ds = DataEngine.cleanData rows.
Proof.
  intros D id name rows st st' ds H Hid Hi Hg. unfold DataEngine.storeDataset in H.
  destruct (Nat.eqb _ 0); [discriminate H|].
  destruct (_ || _); [discriminate H|].
  injection H as <- <-. split; [|reflexivity].
  unfold DataEngine.prepareMasterData. cbn [DataEngine.datasetCollection].
  unfold assign. destruct (String.eqb_spec id "__proto__") as [E|_]; [contradiction|].
  rewrite keys_fresh by assumption. rewrite length_app. cbn [List.length].
  replace (List.length (keys (DataEngine.datasetCollection st)) + 1)%nat
    with (S (List.length (keys (DataEngine.datasetCollection st)))) by lia.
  cbn [Nat.eqb String.eqb Ascii.eqb Bool.eqb DataEngine.masterData].
  rewrite last_last. unfold DataEngine.data_of. rewrite get_set, String.eqb_refl. reflexivity.
Qed.

Lemma storeDataset_then_single_witness :
  DataEngine.masterData (DataEngine.prepareMasterData "single" stored_state)
  = DataEngine.cleanData two_column_rows.
Proof.
  apply (storeDataset_then_single no_parser "ds_1" "a.csv" two_column_rows empty_state
           stored_state stored_dataset); try reflexivity. discriminate.
Defined.

Lemma hydrate_fold : forall (l : list DataEngine.dataset) (c : obj DataEngine.dataset) k,
  k <> "__proto__" ->
  get (fold_left (fun c ds => assign c (DataEngine.id ds) ds) l c) k
  = match find (fun ds => String.eqb (DataEngine.id ds) k) (rev l) with
    | Some ds => Some ds
    | None => get c k
    end.
Proof.
  intros l c k Hk. revert c. induction l as [|ds l IH] using rev_ind; intros c; [reflexivity|].
  rewrite fold_left_app, rev_app_distr. cbn [fold_left rev app find].
  unfold assign at 1.
  destruct (String.eqb_spec (DataEngine.id ds) k) as [E|Hn].
  - destruct (String.eqb_spec (DataEngine.id ds) "__proto__") as [E'|_]; [congruence|].
    rewrite get_set, E, String.eqb_refl. reflexivity.
  - destruct (String.eqb (DataEngine.id ds) "__proto__"); [apply IH|].
    rewrite get_set. destruct (String.eqb_spec (DataEngine.id ds) k); [contradiction|].
    apply IH.
Qed.

(** X19: after [loadHydratedCollection] the collection answers, for an
    id, the last persisted dataset of that id, and what it answered
    before when no persisted dataset has the id; with no array of
    persisted datasets nothing changes. *)
Theorem loadHydratedCollection_lookup : forall persisted st k,
  k <> "__proto__" ->
  get (DataEngine.datasetCollection (DataEngine.loadHydratedCollection persisted st)) k
  = match persisted with
    | Some l =>
        match find (fun ds => String.eqb (DataEngine.id ds) k) (rev l) with
        | Some ds => Some ds
        | None => get (DataEngine.datasetCollection st) k
        end
    | None => get (DataEngine.datasetCollection st) k
    end.
Proof.
  intros [l|] st k Hk; [|reflexivity].
  cbn [DataEngine.loadHydratedCollection DataEngine.datasetCollection].
  apply hydrate_fold. exact Hk.
Qed.

Lemma loadHydratedCollection_lookup_witness :
  get (DataEngine.datasetCollection
         (DataEngine.loadHydratedCollection (Some [stored_dataset]) empty_state)) "ds_1"
  = Some stored_dataset.
Proof.
  rewrite (loadHydratedCollection_lookup (Some [stored_dataset]) empty_state "ds_1");
    [reflexivity|discriminate].
Defined.
